(** * server-checker: a model of [check.ts]

    The monitor probes every configured server (an ICMP ping, then a TCP or a
    UDP port check), classifies the result, inserts one row per server into
    SQLite and posts or edits one Discord message.

    The file follows the source top-down: JavaScript numbers and strings,
    the configuration, asynchronous tasks on a virtual clock, the probes,
    [checkServerStatus], [sendDiscordNotification], [monitorServers] and the
    timer; the theorems come after the definitions. *)

From Stdlib Require Import List String Ascii Bool NArith ZArith QArith Lia.
From Stdlib Require Import DecimalString Permutation.
Import ListNotations.
Close Scope Q_scope.
Open Scope string_scope.
Open Scope N_scope.

(** ** JavaScript numbers

    [res.time] and [pingTime] are JavaScript numbers.  A finite double is a
    rational, so [Finite q] covers every finite value; the three special
    values are kept because [typeof NaN === 'number'].  Only the order is
    used by the program, and the order of finite doubles is the order of
    the rationals. *)

Inductive number : Type :=
| Finite (q : Q)
| PosInfinity
| NegInfinity
| NaN.

(** [a < b] as JavaScript evaluates it: false as soon as one side is NaN. *)
Definition number_ltb (a b : number) : bool :=
  match a, b with
  | NaN, _ | _, NaN => false
  | Finite x, Finite y => match (x ?= y)%Q with Lt => true | _ => false end
  | NegInfinity, NegInfinity => false
  | NegInfinity, _ => true
  | _, NegInfinity => false
  | PosInfinity, _ => false
  | Finite _, PosInfinity => true
  end.

(** The mathematical order on the extended rationals, stated apart from the
    evaluator above; NaN is related to nothing. *)
Definition number_lt (a b : number) : Prop :=
  match a, b with
  | Finite x, Finite y => (x < y)%Q
  | Finite _, PosInfinity => True
  | NegInfinity, Finite _ => True
  | NegInfinity, PosInfinity => True
  | _, _ => False
  end.

Definition number_le (a b : number) : Prop :=
  match a, b with
  | Finite x, Finite y => (x <= y)%Q
  | Finite _, PosInfinity => True
  | NegInfinity, Finite _ => True
  | NegInfinity, PosInfinity => True
  | PosInfinity, PosInfinity => True
  | NegInfinity, NegInfinity => True
  | _, _ => False
  end.

Definition of_Z (z : Z) : number := Finite (inject_Z z).

(** The ports Node accepts ([validatePort]): the integers from 0 to 65535,
    0 itself only where the caller allows it.  [socket.connect] allows it,
    [dgram]'s [send] does not; any other value makes them throw
    [ERR_SOCKET_BAD_PORT]. *)
Definition valid_port (allowZero : bool) (port : number) : bool :=
  match port with
  | Finite q =>
      let n := (Qnum q / Zpos (Qden q))%Z in
      ((Qnum q mod Zpos (Qden q) =? 0)%Z
       && (if allowZero then (0 <=? n)%Z else (0 <? n)%Z)
       && (n <=? 65535)%Z)%bool
  | PosInfinity | NegInfinity | NaN => false
  end.

(** ** Strings

    Strings are byte strings holding UTF-8.  The status labels start with an
    emoji, written here by its UTF-8 bytes. *)

Definition utf8 (bytes : list nat) : string :=
  string_of_list_ascii (map ascii_of_nat bytes).

(** U+1F534 LARGE RED CIRCLE, U+1F7E1 LARGE YELLOW CIRCLE,
    U+1F7E2 LARGE GREEN CIRCLE. *)
Definition red_circle : string := utf8 [240; 159; 148; 180]%nat.
Definition yellow_circle : string := utf8 [240; 159; 159; 161]%nat.
Definition green_circle : string := utf8 [240; 159; 159; 162]%nat.

Definition newline : string := utf8 [10]%nat.

(** [s.includes(needle)]: [needle] occurs somewhere in [s].  UTF-8 is
    self-synchronising, so a match on bytes is a match on characters. *)
Fixpoint includes (s needle : string) : bool :=
  String.prefix needle s ||
  match s with
  | EmptyString => false
  | String _ rest => includes rest needle
  end.

(** Decimal rendering of a non-negative integer, as a template literal
    renders [Math.floor(...)]. *)
Definition show_N (n : N) : string := NilEmpty.string_of_uint (N.to_uint n).

(** ** Health status

    The source has no enumeration: a status is one of three string
    literals.  [HealthStatus] names them; [label] gives the per-server
    literal and [overall_label] the literal of the summary. *)

Inductive HealthStatus : Type := Good | Degraded | Down.

Definition label (h : HealthStatus) : string :=
  match h with
  | Good => green_circle ++ " Good"
  | Degraded => yellow_circle ++ " Degraded"
  | Down => red_circle ++ " Down"
  end.

Definition overall_label (h : HealthStatus) : string :=
  match h with
  | Good => green_circle ++ " Operational"
  | Degraded => yellow_circle ++ " Warning"
  | Down => red_circle ++ " Critical"
  end.

(** ** Configuration *)

Inductive Protocol : Type := tcp | udp.

Record ServerConfig : Type := {
  name : string;
  ip : string;
  port : number;
  protocol : Protocol
}.

(** The object [checkServerStatus] resolves to. *)
Record ServerStatus : Type := {
  st_name : string;
  st_status : string;
  st_ping : option number
}.

(** ** Classification (check.ts, lines 99-108)

    [let status = Down; if (pingTime !== null && isPortOpen) { ... }]. *)
Definition classify (pingTime : option number) (isPortOpen : bool) : string :=
  match pingTime with
  | Some t =>
      if isPortOpen then
        if number_ltb t (of_Z 100) then label Good
        else if number_ltb t (of_Z 200) then label Degraded
        else label Down
      else label Down
  | None => label Down
  end.

(** ** Overall status (check.ts, lines 116-120) *)
Definition overallStatus (statuses : list ServerStatus) : string :=
  if existsb (fun status => includes (st_status status) red_circle) statuses
  then overall_label Down
  else if existsb (fun status => includes (st_status status) yellow_circle) statuses
  then overall_label Degraded
  else overall_label Good.

(** ** What leaves the process

    A row of [server_status] as [db.run] receives it (columns name, ip,
    port, protocol, status, ping), and the Discord message payload. *)

Record Row : Type := {
  row_name : string;
  row_ip : option string;
  row_port : option number;
  row_protocol : option Protocol;
  row_status : string;
  row_ping : option number
}.

Record Field : Type := {
  field_name : string;
  field_value : string;
  field_inline : bool
}.

Inductive Embed : Type :=
| SummaryEmbed (title description : string) (color : N)
| DetailsEmbed (title : string) (fields : list Field) (color : N).

Record MessagePayload : Type := { embeds : list Embed }.

Record Headers : Type := { Authorization : string; Content_Type : string }.

(** Virtual time, in milliseconds; [Date.now()] reads it. *)
Definition time : Type := N.

(** [SocketBadPort] is Node's [ERR_SOCKET_BAD_PORT]. *)
Inductive Error : Type := PingError | SqliteError | AxiosError | SocketBadPort.

(** Every call the program makes to a library, with its arguments. *)
Inductive Call : Type :=
| PingProbe (ip : string)
| SocketConnect (timeout : N) (port : number) (ip : string)
| DgramSend (port : number) (ip : string)
| DbExec
| DbRun (row : Row)
| AxiosPatch (url : string) (payload : MessagePayload) (headers : Headers)
| AxiosPost (url : string) (payload : MessagePayload) (headers : Headers)
| ConsoleError (message : string) (error : Error)
| SetInterval (period : N).

(** ** Asynchronous tasks

    A task started at time [t] settles at [settled_at], resolved with a
    value or rejected with an error, and [calls] lists the library calls it
    made, each with the time at which it was made. *)

Inductive Outcome (A : Type) : Type :=
| Resolved (a : A)
| Rejected (e : Error).
Arguments Resolved {A} a.
Arguments Rejected {A} e.

Record Settled (A : Type) : Type := {
  outcome : Outcome A;
  settled_at : time;
  calls : list (time * Call)
}.
Arguments outcome {A} s.
Arguments settled_at {A} s.
Arguments calls {A} s.

Definition Task (A : Type) : Type := time -> Settled A.

Definition ret {A} (a : A) : Task A := fun t =>
  {| outcome := Resolved a; settled_at := t; calls := [] |}.

(** [const x = await m; k x]: the continuation starts when [m] settles; a
    rejection of [m] is the rejection of the whole. *)
Definition bind {A B} (m : Task A) (k : A -> Task B) : Task B := fun t =>
  let r := m t in
  match outcome r with
  | Resolved a =>
      let r' := k a (settled_at r) in
      {| outcome := outcome r'; settled_at := settled_at r';
         calls := calls r ++ calls r' |}
  | Rejected e =>
      {| outcome := Rejected e; settled_at := settled_at r; calls := calls r |}
  end.

(** [try { m } catch (error) { handler error }]. *)
Definition try_catch {A} (m : Task A) (handler : Error -> Task A) : Task A :=
  fun t =>
  let r := m t in
  match outcome r with
  | Resolved a => r
  | Rejected e =>
      let r' := handler e (settled_at r) in
      {| outcome := outcome r'; settled_at := settled_at r';
         calls := calls r ++ calls r' |}
  end.

Notation "x <- m ;; k" := (bind m (fun x => k))
  (at level 61, m at next level, right associativity).

(** One library call made at [t] that settles [duration] later. *)
Definition perform {A} (c : Call) (o : Outcome A) (duration : N) : Task A :=
  fun t => {| outcome := o; settled_at := t + duration; calls := [(t, c)] |}.

(** [Promise.all]: every task is started at the same instant; the result
    resolves when the last one has resolved, or rejects with the error of
    the task that rejects first (the earlier in the array on a tie).  The
    other tasks are not cancelled: their calls are made all the same. *)
Fixpoint first_rejection {A} (rs : list (Settled A)) : option (time * Error) :=
  match rs with
  | [] => None
  | r :: rest =>
      match outcome r, first_rejection rest with
      | Rejected e, Some (t', e') =>
          if settled_at r <=? t' then Some (settled_at r, e) else Some (t', e')
      | Rejected e, None => Some (settled_at r, e)
      | Resolved _, later => later
      end
  end.

Fixpoint resolved_values {A} (rs : list (Settled A)) : list A :=
  match rs with
  | [] => []
  | r :: rest =>
      match outcome r with
      | Resolved a => a :: resolved_values rest
      | Rejected _ => resolved_values rest
      end
  end.

Definition last_settled {A} (t : time) (rs : list (Settled A)) : time :=
  fold_right (fun r acc => N.max (settled_at r) acc) t rs.

Definition Promise_all {A} (tasks : list (Task A)) : Task (list A) := fun t =>
  let rs := map (fun task => task t) tasks in
  match first_rejection rs with
  | Some (t', e) =>
      {| outcome := Rejected e; settled_at := t'; calls := List.concat (map calls rs) |}
  | None =>
      {| outcome := Resolved (resolved_values rs); settled_at := last_settled t rs;
         calls := List.concat (map calls rs) |}
  end.

(** ** The outside world

    What the network, the database and Discord answer to a call made at a
    given time, and how long the answer takes.  Every call is answered: the
    ping library has its own timeout, a socket with a timeout emits one of
    its three events, and the callback of [send] is taken to be called. *)

(** [res.time] is a number, or something else (the library's ['unknown']). *)
Inductive PingTime : Type := time_number (n : number) | time_unknown.

Record PingResponse : Type := { alive : bool; res_time : PingTime }.

(** What the peer does to a connecting socket, left alone. *)
Inductive SocketBehaviour : Type :=
| accepts_after (d : N)
| fails_after (d : N)
| silent.

Inductive SocketEvent : Type := ev_connect | ev_timeout | ev_error.

(** The first event a socket with [socket.setTimeout(timeout)] emits, and
    when: the timeout fires if nothing happened before it. *)
Definition socket_first_event (timeout : N) (b : SocketBehaviour) : SocketEvent * N :=
  match b with
  | accepts_after d => if d <? timeout then (ev_connect, d) else (ev_timeout, timeout)
  | fails_after d => if d <? timeout then (ev_error, d) else (ev_timeout, timeout)
  | silent => (ev_timeout, timeout)
  end.

(** A datagram socket either emits ['error'] or calls the callback of
    [send] with or without an error; whichever comes first settles the
    promise. *)
Inductive DgramEvent : Type := dgram_error | dgram_sent (err : bool).

Record World : Type := {
  ping_reply : time -> string -> option PingResponse * N;
  socket_reply : time -> number -> string -> SocketBehaviour;
  dgram_reply : time -> number -> string -> DgramEvent * N;
  db_exec_reply : time -> bool * N;
  db_run_reply : time -> Row -> bool * N;
  patch_reply : time -> string -> MessagePayload -> bool * N;
  post_reply : time -> string -> MessagePayload -> option string * N
}.

(** Tasks that also read and write the module variable
    [discordMessageId : string | null]; the variable is kept whether the
    task resolves or rejects. *)
Definition StatefulTask (A : Type) : Type :=
  option string -> time -> Settled A * option string.

Definition lift {A} (m : Task A) : StatefulTask A :=
  fun discordMessageId t => (m t, discordMessageId).

Definition sbind {A B} (m : StatefulTask A) (k : A -> StatefulTask B)
  : StatefulTask B :=
  fun discordMessageId t =>
  let '(r, id) := m discordMessageId t in
  match outcome r with
  | Resolved a =>
      let '(r', id') := k a id (settled_at r) in
      ({| outcome := outcome r'; settled_at := settled_at r';
          calls := calls r ++ calls r' |}, id')
  | Rejected e =>
      ({| outcome := Rejected e; settled_at := settled_at r; calls := calls r |}, id)
  end.

(** [if (discordMessageId)]: null and the empty string are falsy. *)
Definition truthy (discordMessageId : option string) : bool :=
  match discordMessageId with
  | Some id => negb (String.eqb id "")
  | None => false
  end.

Section Monitor.

(** The world the process runs in, the parsed [config.ini], and the
    rendering of a number in a template literal. *)
Variable W : World.
Variable servers : list ServerConfig.
Variable botToken channelId : string.
Variable toString : number -> string.

(** *** Library calls *)

Definition ping_promise_probe (ip : string) : Task PingResponse := fun t =>
  let '(res, d) := ping_reply W t ip in
  perform (PingProbe ip)
    (match res with Some r => Resolved r | None => Rejected PingError end) d t.

Definition db_exec : Task unit := fun t =>
  let '(ok, d) := db_exec_reply W t in
  perform DbExec (if ok then Resolved tt else Rejected SqliteError) d t.

Definition db_run (row : Row) : Task unit := fun t =>
  let '(ok, d) := db_run_reply W t row in
  perform (DbRun row) (if ok then Resolved tt else Rejected SqliteError) d t.

Definition axios_patch (url : string) (payload : MessagePayload) (h : Headers)
  : Task unit := fun t =>
  let '(ok, d) := patch_reply W t url payload in
  perform (AxiosPatch url payload h)
    (if ok then Resolved tt else Rejected AxiosError) d t.

(** Resolves to [response.data.id]. *)
Definition axios_post (url : string) (payload : MessagePayload) (h : Headers)
  : Task string := fun t =>
  let '(res, d) := post_reply W t url payload in
  perform (AxiosPost url payload h)
    (match res with Some id => Resolved id | None => Rejected AxiosError end) d t.

Definition console_error (message : string) (error : Error) : Task unit :=
  perform (ConsoleError message error) (Resolved tt) 0.

Definition setInterval (period : N) : Task unit :=
  perform (SetInterval period) (Resolved tt) 0.

(** *** Probes (check.ts, lines 53-91) *)

Definition pingServer (ip : string) : Task (option number) :=
  try_catch
    (res <- ping_promise_probe ip ;;
     ret (if alive res
          then match res_time res with
               | time_number n => Some n
               | time_unknown => None
               end
          else None))
    (fun _ => ret None).

(** [socket.connect(port, ip)] is called inside the promise executor.  For
    a port it does not accept it throws there, and the promise is rejected
    at once; otherwise the first event of the socket resolves it. *)
Definition checkTCPPort (ip : string) (port : number) : Task bool := fun t =>
  if valid_port true port then
    let '(event, d) := socket_first_event 3000 (socket_reply W t port ip) in
    perform (SocketConnect 3000 port ip)
      (Resolved match event with
                | ev_connect => true
                | ev_timeout => false
                | ev_error => false
                end) d t
  else
    {| outcome := Rejected SocketBadPort;
       settled_at := t;
       calls := [(t, SocketConnect 3000 port ip)] |}.

(** [client.send('', port, ip, callback)] likewise throws inside the
    executor for a port it does not accept, which here includes port 0. *)
Definition checkUDPPort (ip : string) (port : number) : Task bool := fun t =>
  if valid_port false port then
    let '(event, d) := dgram_reply W t port ip in
    perform (DgramSend port ip)
      (Resolved match event with
                | dgram_error => false
                | dgram_sent err => negb err
                end) d t
  else
    {| outcome := Rejected SocketBadPort;
       settled_at := t;
       calls := [(t, DgramSend port ip)] |}.

(** *** [checkServerStatus] (check.ts, lines 93-111) *)

Definition checkPort (server : ServerConfig) : Task bool :=
  match protocol server with
  | tcp => checkTCPPort (ip server) (port server)
  | udp => checkUDPPort (ip server) (port server)
  end.

Definition checkServerStatus (server : ServerConfig) : Task ServerStatus :=
  pingTime <- pingServer (ip server) ;;
  isPortOpen <- checkPort server ;;
  ret {| st_name := name server;
         st_status := classify pingTime isPortOpen;
         st_ping := match pingTime with Some p => Some p | None => None end |}.

(** *** [sendDiscordNotification] (check.ts, lines 113-164) *)

Definition serverField (status : ServerStatus) : Field :=
  {| field_name := st_name status;
     field_value :=
       (st_status status ++ " | Ping: " ++
        match st_ping status with
        | Some p => toString p ++ " ms"
        | None => "N/A"
        end)%string;
     field_inline := true |}.

(** The payload built by a call made at [now].  The source reads
    [Date.now()] once for each of the two timestamps; both reads fall in
    the synchronous part of the call and are taken here at the one instant
    [now] of the virtual clock, so nothing below depends on how far apart
    the two timestamps are. *)
Definition messagePayload (statuses : list ServerStatus) (now : time)
  : MessagePayload :=
  let nextUpdateInUnix := (now + 30000) / 1000 in
  let summaryEmbed :=
    SummaryEmbed "Server Status Summary"
      ("**Overall Status:** " ++ overallStatus statuses ++ newline ++ newline ++
       "Last updated: <t:" ++ show_N (now / 1000) ++ ":R>" ++ newline ++
       "Next update: <t:" ++ show_N nextUpdateInUnix ++ ":R>")%string
      3092790 in
  let detailsEmbed :=
    DetailsEmbed "Server Details" (map serverField statuses) 3092790 in
  {| embeds := [summaryEmbed; detailsEmbed] |}.

Definition messages_url : string :=
  ("https://discord.com/api/v10/channels/" ++ channelId ++ "/messages")%string.

Definition message_url (id : string) : string :=
  (messages_url ++ "/" ++ id)%string.

Definition headers : Headers :=
  {| Authorization := ("Bot " ++ botToken)%string;
     Content_Type := "application/json" |}.

Definition notification_error : string :=
  "Error sending notification to Discord:".

(** The [try] block computes the next value of [discordMessageId]; the
    [catch] block logs and leaves the variable as it was. *)
Definition sendDiscordNotification (statuses : list ServerStatus)
  : StatefulTask unit :=
  fun discordMessageId now =>
  let payload := messagePayload statuses now in
  let attempt : Task (option string) :=
    if truthy discordMessageId then
      _ <- axios_patch
             (message_url match discordMessageId with
                          | Some id => id
                          | None => "null"
                          end) payload headers ;;
      ret discordMessageId
    else
      response_data_id <- axios_post messages_url payload headers ;;
      ret (Some response_data_id) in
  let r :=
    try_catch attempt
      (fun error => _ <- console_error notification_error error ;;
                    ret discordMessageId) now in
  ({| outcome := match outcome r with
                 | Resolved _ => Resolved tt
                 | Rejected e => Rejected e
                 end;
      settled_at := settled_at r;
      calls := calls r |},
   match outcome r with
   | Resolved id => id
   | Rejected _ => discordMessageId
   end).

(** *** [monitorServers] (check.ts, lines 167-178) *)

(** The parameters of the INSERT: the address, port and protocol are looked
    up again by name with [servers.find(...)?.]. *)
Definition insert_params (status : ServerStatus) : Row :=
  let found := find (fun s => String.eqb (name s) (st_name status)) servers in
  {| row_name := st_name status;
     row_ip := option_map ip found;
     row_port := option_map port found;
     row_protocol := option_map protocol found;
     row_status := st_status status;
     row_ping := st_ping status |}.

(** [dbPromise] resolved during start-up, so [await dbPromise] takes no
    time here. *)
Definition monitorServers : StatefulTask unit :=
  sbind (lift (statuses <- Promise_all (map checkServerStatus servers) ;;
               _ <- Promise_all (map (fun status => db_run (insert_params status))
                                     statuses) ;;
               ret statuses))
        (fun statuses => sendDiscordNotification statuses).

(** *** [startMonitoring] (check.ts, lines 37-51 and 180-188) *)

Definition setupDatabase : Task unit := db_exec.

(** The function given to [setInterval]; the promise it returns is dropped
    by the timer. *)
Definition timerCallback : StatefulTask unit :=
  sbind monitorServers (fun _ => lift (ret tt)).

Definition startMonitoring : StatefulTask unit :=
  sbind (lift setupDatabase) (fun _ =>
  sbind (lift (setInterval 30000)) (fun _ =>
  monitorServers)).

End Monitor.

(** ** Reading a trace *)

Definition is_insert (c : Call) : bool :=
  match c with DbRun _ => true | _ => false end.

Definition is_create (c : Call) : bool :=
  match c with AxiosPost _ _ _ => true | _ => false end.

Definition is_update (c : Call) : bool :=
  match c with AxiosPatch _ _ _ => true | _ => false end.

Definition is_publish (c : Call) : bool := is_create c || is_update c.

Definition is_log (c : Call) : bool :=
  match c with ConsoleError _ _ => true | _ => false end.

Definition select (p : Call -> bool) (tr : list (time * Call)) : list (time * Call) :=
  filter (fun c => p (snd c)) tr.

(** The rows handed to [db.run], in the order of the calls. *)
Definition inserted (tr : list (time * Call)) : list Row :=
  flat_map (fun c => match snd c with DbRun row => [row] | _ => [] end) tr.

(** The URLs of the PATCH requests. *)
Definition updated_urls (tr : list (time * Call)) : list string :=
  flat_map (fun c => match snd c with AxiosPatch url _ _ => [url] | _ => [] end) tr.

(** ** The probes as functions of the world

    What [pingServer] and the port check resolve to, and how long they
    take, read off the world's answers. *)

Definition ping_value (W : World) (t : time) (ip : string) : option number :=
  match fst (ping_reply W t ip) with
  | Some res =>
      if alive res
      then match res_time res with time_number n => Some n | time_unknown => None end
      else None
  | None => None
  end.

Definition ping_duration (W : World) (t : time) (ip : string) : N :=
  snd (ping_reply W t ip).

Definition port_call (server : ServerConfig) : Call :=
  match protocol server with
  | tcp => SocketConnect 3000 (port server) (ip server)
  | udp => DgramSend (port server) (ip server)
  end.

(** The port of the server is one its port check accepts. *)
Definition port_ok (server : ServerConfig) : bool :=
  match protocol server with
  | tcp => valid_port true (port server)
  | udp => valid_port false (port server)
  end.

Definition ports_in_range (servers : list ServerConfig) : Prop :=
  Forall (fun server => port_ok server = true) servers.

(** What the port check of a server with an accepted port resolves to. *)
Definition port_value (W : World) (t : time) (server : ServerConfig) : bool :=
  match protocol server with
  | tcp =>
      match fst (socket_first_event 3000 (socket_reply W t (port server) (ip server))) with
      | ev_connect => true
      | _ => false
      end
  | udp =>
      match fst (dgram_reply W t (port server) (ip server)) with
      | dgram_error => false
      | dgram_sent err => negb err
      end
  end.

(** How long the port check takes; a port that is not accepted is refused
    at once. *)
Definition port_duration (W : World) (t : time) (server : ServerConfig) : N :=
  if port_ok server then
    match protocol server with
    | tcp => snd (socket_first_event 3000 (socket_reply W t (port server) (ip server)))
    | udp => snd (dgram_reply W t (port server) (ip server))
    end
  else 0.

(** The status object of a server with an accepted port whose probe starts
    at [t]. *)
Definition status_at (W : World) (t : time) (server : ServerConfig) : ServerStatus :=
  let pingTime := ping_value W t (ip server) in
  let isPortOpen := port_value W (t + ping_duration W t (ip server)) server in
  {| st_name := name server;
     st_status := classify pingTime isPortOpen;
     st_ping := pingTime |}.

(** When that probe has settled. *)
Definition probed_at (W : World) (t : time) (server : ServerConfig) : time :=
  t + ping_duration W t (ip server)
    + port_duration W (t + ping_duration W t (ip server)) server.

(** ** Repeated reporting

    The reporter called once per entry of [runs], each call at its own
    time, the variable [discordMessageId] carried from one call to the
    next. *)
Fixpoint report_all (W : World) (botToken channelId : string)
    (toString : number -> string)
    (runs : list (time * list ServerStatus)) (discordMessageId : option string)
  : list (time * Call) * option string :=
  match runs with
  | [] => ([], discordMessageId)
  | (now, statuses) :: rest =>
      let '(r, id) :=
        sendDiscordNotification W botToken channelId toString statuses
          discordMessageId now in
      let '(tr, id') := report_all W botToken channelId toString rest id in
      ((calls r ++ tr)%list, id')
  end.

(** ** Sample configurations and worlds *)

Definition web : ServerConfig :=
  {| name := "web"; ip := "10.0.0.1"; port := of_Z 443; protocol := tcp |}.

Definition game : ServerConfig :=
  {| name := "game"; ip := "10.0.0.2"; port := of_Z 27015; protocol := udp |}.

(** A world that answers every call the same way at every time. *)
Definition steady_world (ping : option PingResponse * N) (socket : SocketBehaviour)
    (dgram : DgramEvent * N) (db_ok : Row -> bool) (db_time : N)
    (patch_ok : bool) (post : option string) (http_time : N) : World :=
  {| ping_reply := fun _ _ => ping;
     socket_reply := fun _ _ _ => socket;
     dgram_reply := fun _ _ _ => dgram;
     db_exec_reply := fun _ => (true, db_time);
     db_run_reply := fun _ row => (db_ok row, db_time);
     patch_reply := fun _ _ _ => (patch_ok, http_time);
     post_reply := fun _ _ _ => (post, http_time) |}.

Definition pong (ms : Z) : option PingResponse * N :=
  (Some {| alive := true; res_time := time_number (of_Z ms) |}, Z.to_N ms).

(** Ping answers in 50 ms, sockets connect in 10 ms, writes take 5 ms and
    Discord answers in 80 ms with message id 1001. *)
Definition healthy_world : World :=
  steady_world (pong 50) (accepts_after 10) (dgram_sent false, 1)
    (fun _ => true) 5 true (Some "1001") 80.

(** As [healthy_world], but nothing listens on the TCP port. *)
Definition closed_port_world : World :=
  steady_world (pong 50) (fails_after 2) (dgram_sent false, 1)
    (fun _ => true) 5 true (Some "1001") 80.

(** As [healthy_world], but the INSERT of the row named [web] fails. *)
Definition failing_db_world : World :=
  steady_world (pong 50) (accepts_after 10) (dgram_sent false, 1)
    (fun row => negb (String.eqb (row_name row) "web")) 5 true (Some "1001") 80.

(** As [healthy_world], but Discord refuses every request. *)
Definition discord_down_world : World :=
  steady_world (pong 50) (accepts_after 10) (dgram_sent false, 1)
    (fun _ => true) 5 false None 80.

(** As [healthy_world], but the created message comes back with an empty
    id. *)
Definition empty_id_world : World :=
  steady_world (pong 50) (accepts_after 10) (dgram_sent false, 1)
    (fun _ => true) 5 true (Some "") 80.

(** A rendering of numbers for the samples: the integer part of a finite
    non-negative value, which is exact on the whole milliseconds used
    above. *)
Definition show_number (n : number) : string :=
  match n with
  | Finite q => show_N (Z.to_N (Qnum q / Zpos (Qden q)))
  | PosInfinity => "Infinity"
  | NegInfinity => "-Infinity"
  | NaN => "NaN"
  end.

(** ** Vocabulary of the statements *)

(** A status string that is one of the three labels. *)
Definition known_status (s : ServerStatus) : Prop :=
  exists h, st_status s = label h.

(** The ping gave no latency: the probe threw, or the host did not answer. *)
Definition ping_fails (W : World) (t : time) (ip : string) : Prop :=
  match fst (ping_reply W t ip) with
  | None => True
  | Some res => alive res = false
  end.

(** The TCP handshake did not complete: the peer refused, or nothing
    happened within the 3000 ms of the socket timeout. *)
Definition tcp_fails (W : World) (t : time) (port : number) (ip : string) : Prop :=
  match socket_reply W t port ip with
  | accepts_after d => 3000 <= d
  | fails_after _ => True
  | silent => True
  end.

(** The two sub-checks of a probe started at [t] run concurrently: both
    calls are made at [t], and the probe settles when the later of the two
    has settled. *)
Definition subchecks_concurrent (W : World) (server : ServerConfig) (t : time) : Prop :=
  let r := checkServerStatus W server t in
  Forall (fun c => fst c = t) (calls r) /\
  settled_at r =
    N.max (settled_at (pingServer W (ip server) t))
          (settled_at (checkPort W server t)).

(** [let discordMessageId = null] (check.ts, line 14). *)
Definition initial_discordMessageId : option string := None.

(** The request the reporter makes at [now] is refused. *)
Definition publish_fails (W : World) (channelId : string)
    (toString : number -> string) (statuses : list ServerStatus)
    (discordMessageId : option string) (now : time) : Prop :=
  let payload := messagePayload toString statuses now in
  match discordMessageId with
  | Some id =>
      if truthy discordMessageId
      then fst (patch_reply W now (message_url channelId id) payload) = false
      else fst (post_reply W now (messages_url channelId) payload) = None
  | None => fst (post_reply W now (messages_url channelId) payload) = None
  end.

(** Every request to Discord succeeds. *)
Definition publishes_succeed (W : World) : Prop :=
  (forall t url payload, fst (patch_reply W t url payload) = true) /\
  (forall t url payload, fst (post_reply W t url payload) <> None).

(** Every created message comes back with a non-empty id. *)
Definition ids_non_empty (W : World) : Prop :=
  forall t url payload, fst (post_reply W t url payload) <> Some "".

(** [n] reports left one create and [n - 1] updates in the trace, every
    update addressed to the message whose id the variable holds. *)
Definition one_create_then_updates (channelId : string) (n : nat)
    (result : list (time * Call) * option string) : Prop :=
  exists id,
    snd result = Some id /\
    List.length (select is_create (fst result)) = 1%nat /\
    List.length (select is_update (fst result)) = (n - 1)%nat /\
    Forall (fun url => url = message_url channelId id) (updated_urls (fst result)).

(** ** One cycle, read off the world

    The probes of a cycle started at [t] are all started at [t]. *)

Definition probe_fails (W : World) (t : time) (server : ServerConfig) : Prop :=
  ping_value W t (ip server) = None \/
  port_value W (t + ping_duration W t (ip server)) server = false.

Definition cycle_statuses (W : World) (servers : list ServerConfig) (t : time)
  : list ServerStatus :=
  map (status_at W t) servers.

(** The instant at which the last probe has settled. *)
Definition probes_settled (W : World) (servers : list ServerConfig) (t : time) : time :=
  fold_right (fun server acc => N.max (probed_at W t server) acc) t servers.

Definition probe_calls (W : World) (servers : list ServerConfig) (t : time)
  : list (time * Call) :=
  flat_map (fun server =>
              [(t, PingProbe (ip server));
               (t + ping_duration W t (ip server), port_call server)]) servers.

(** The second [Promise.all] of the cycle: the INSERTs. *)
Definition writes (W : World) (servers : list ServerConfig) (t : time)
  : Settled (list unit) :=
  Promise_all
    (map (fun status => db_run W (insert_params servers status))
         (cycle_statuses W servers t))
    (probes_settled W servers t).

(** The fields of the details embed of a request to Discord. *)
Definition published_fields (c : Call) : list Field :=
  match c with
  | AxiosPatch _ payload _ | AxiosPost _ payload _ =>
      flat_map (fun e => match e with
                         | DetailsEmbed _ fields _ => fields
                         | SummaryEmbed _ _ _ => []
                         end) (embeds payload)
  | _ => []
  end.

(** In the cycle started at [t] the writes and the report are started
    together: the report is made, and every INSERT and the request to
    Discord are issued at the instant the probes have settled. *)
Definition record_and_report_concurrent (W : World) (servers : list ServerConfig)
    (botToken channelId : string) (toString : number -> string)
    (discordMessageId : option string) (t : time) : Prop :=
  let tr := calls (fst (monitorServers W servers botToken channelId toString
                          discordMessageId t)) in
  List.length (select is_publish tr) = 1%nat /\
  Forall (fun c => fst c = probes_settled W servers t) (select is_insert tr) /\
  Forall (fun c => fst c = probes_settled W servers t) (select is_publish tr).

(** Three servers: the first answers a ping in 50 ms, the second in 150 ms,
    the third not at all; every port is open and every write and request
    succeeds. *)
Definition backup : ServerConfig :=
  {| name := "backup"; ip := "10.0.0.3"; port := of_Z 22; protocol := tcp |}.

Definition mixed_world : World :=
  {| ping_reply := fun _ ip =>
       if String.eqb ip "10.0.0.1" then pong 50
       else if String.eqb ip "10.0.0.2" then pong 150
       else (Some {| alive := false; res_time := time_unknown |}, 2000);
     socket_reply := fun _ _ _ => accepts_after 10;
     dgram_reply := fun _ _ _ => (dgram_sent false, 1);
     db_exec_reply := fun _ => (true, 5);
     db_run_reply := fun _ _ => (true, 5);
     patch_reply := fun _ _ _ => (true, 80);
     post_reply := fun _ _ _ => (Some "1001", 80) |}.

(** ** More readers of a trace *)

Definition is_ping (c : Call) : bool :=
  match c with PingProbe _ => true | _ => false end.

Definition is_port_check (c : Call) : bool :=
  match c with SocketConnect _ _ _ | DgramSend _ _ => true | _ => false end.

(** As [healthy_world], but the database refuses the CREATE TABLE of the
    start-up. *)
Definition no_database_world : World :=
  {| ping_reply := ping_reply healthy_world;
     socket_reply := socket_reply healthy_world;
     dgram_reply := dgram_reply healthy_world;
     db_exec_reply := fun _ => (false, 5);
     db_run_reply := db_run_reply healthy_world;
     patch_reply := patch_reply healthy_world;
     post_reply := post_reply healthy_world |}.

(** Servers whose port is refused: a TCP server whose port is NaN, as
    [parseInt] gives for a missing value, and a UDP server on port 0. *)
Definition noport : ServerConfig :=
  {| name := "noport"; ip := "10.0.0.7"; port := NaN; protocol := tcp |}.

Definition dns0 : ServerConfig :=
  {| name := "dns0"; ip := "10.0.0.8"; port := of_Z 0; protocol := udp |}.

(** A second server that bears the name of [web]. *)
Definition web_mirror : ServerConfig :=
  {| name := "web"; ip := "10.0.0.9"; port := of_Z 8443; protocol := udp |}.

(** ** Repeated cycles

    The cycles the timer starts, one per entry of [starts] and each at its
    own instant, run one after the other (no cycle is still running when
    the next one starts), the variable [discordMessageId] carried from one
    cycle to the next. *)
Fixpoint monitor_all (W : World) (servers : list ServerConfig)
    (botToken channelId : string) (toString : number -> string)
    (starts : list time) (discordMessageId : option string)
  : list (time * Call) * option string :=
  match starts with
  | [] => ([], discordMessageId)
  | t :: rest =>
      let '(r, id) :=
        monitorServers W servers botToken channelId toString discordMessageId t in
      let '(tr, id') :=
        monitor_all W servers botToken channelId toString rest id in
      ((calls r ++ tr)%list, id')
  end.

(** The cycles started at [starts] do not overlap: each one starts when the
    one before it has settled, or later. *)
Fixpoint in_sequence (W : World) (servers : list ServerConfig)
    (botToken channelId : string) (toString : number -> string)
    (starts : list time) (discordMessageId : option string) : Prop :=
  match starts with
  | [] => True
  | t :: rest =>
      let r := monitorServers W servers botToken channelId toString discordMessageId t in
      match rest with
      | [] => True
      | t' :: _ => settled_at (fst r) <= t'
      end /\
      in_sequence W servers botToken channelId toString rest (snd r)
  end.

(** * Properties *)

(** ** The order on numbers *)

Lemma number_ltb_lt (a b : number) : number_ltb a b = true <-> number_lt a b.
Proof.
  destruct a as [x| | |], b as [y| | |]; simpl;
    try (split; [discriminate | contradiction]);
    try (split; [trivial | reflexivity]).
  rewrite Qlt_alt.
  destruct (x ?= y)%Q; split; intros H; try reflexivity; discriminate H.
Qed.

Lemma number_le_not_ltb (a b : number) : number_le a b -> number_ltb b a = false.
Proof.
  destruct a as [x| | |], b as [y| | |]; simpl; trivial; try contradiction.
  intros H. pose proof (proj1 (Qle_alt x y) H) as Hgt.
  rewrite <- Qcompare_antisym.
  destruct (x ?= y)%Q; simpl; congruence.
Qed.

Lemma number_le_trans_Z (m n : Z) (a : number) :
  (m <= n)%Z -> number_le (of_Z n) a -> number_le (of_Z m) a.
Proof.
  intros Hmn. destruct a as [x| | |]; simpl; trivial.
  apply Qle_trans. rewrite <- Zle_Qle. exact Hmn.
Qed.

(** ** Classification *)

(** C1. Whatever the latency [L] (possibly none) and the reachability [R]:
    the status is Down when [R] is false or [L] is none; Good when [R] holds
    and [L < 100]; Degraded when [R] holds and [100 <= L < 200]; Down when
    [R] holds and [200 <= L]. *)
Theorem classify_thresholds (L : option number) (R : bool) :
  (R = false \/ L = None -> classify L R = label Down) /\
  (forall l, R = true -> L = Some l ->
     number_lt l (of_Z 100) -> classify L R = label Good) /\
  (forall l, R = true -> L = Some l ->
     number_le (of_Z 100) l -> number_lt l (of_Z 200) ->
     classify L R = label Degraded) /\
  (forall l, R = true -> L = Some l ->
     number_le (of_Z 200) l -> classify L R = label Down).
Proof.
  repeat split.
  - intros [-> | ->]; [destruct L | destruct R]; reflexivity.
  - intros l -> -> H. apply number_ltb_lt in H. simpl. now rewrite H.
  - intros l -> -> Hle Hlt. simpl.
    rewrite (number_le_not_ltb _ _ Hle).
    apply number_ltb_lt in Hlt. now rewrite Hlt.
  - intros l -> -> Hle. simpl.
    rewrite (number_le_not_ltb _ _ (number_le_trans_Z 100 200 l ltac:(lia) Hle)).
    now rewrite (number_le_not_ltb _ _ Hle).
Qed.

(** The boundary values 0, 99, 100, 199 and 200 on a reachable server. *)
Example classify_boundaries :
  map (fun ms => classify (Some (of_Z ms)) true) [0; 99; 100; 199; 200]%Z
  = [label Good; label Good; label Degraded; label Degraded; label Down].
Proof. reflexivity. Qed.

(** A latency that is not a number in the mathematical sense is Down. *)
Example classify_NaN : classify (Some NaN) true = label Down.
Proof. reflexivity. Qed.

Lemma classify_thresholds_witness :
  number_le (of_Z 100) (of_Z 150) /\ number_lt (of_Z 150) (of_Z 200) /\
  classify (Some (of_Z 150)) true = label Degraded.
Proof.
  assert (Hle : number_le (of_Z 100) (of_Z 150)) by (simpl; rewrite <- Zle_Qle; lia).
  assert (Hlt : number_lt (of_Z 150) (of_Z 200)) by (simpl; rewrite <- Zlt_Qlt; lia).
  split; [exact Hle | split; [exact Hlt|]].
  exact (proj1 (proj2 (proj2 (classify_thresholds (Some (of_Z 150)) true)))
           (of_Z 150) eq_refl eq_refl Hle Hlt).
Defined.

Lemma classify_is_label (L : option number) (R : bool) :
  exists h, classify L R = label h.
Proof.
  unfold classify. destruct L as [l|]; [|now exists Down].
  destruct R; [|now exists Down].
  destruct (number_ltb l (of_Z 100)); [now exists Good|].
  destruct (number_ltb l (of_Z 200)); [now exists Degraded | now exists Down].
Qed.

(** ** Overall status *)

Lemma includes_red (s : ServerStatus) :
  known_status s ->
  includes (st_status s) red_circle = true <-> st_status s = label Down.
Proof.
  intros [h ->]. destruct h; vm_compute; split; congruence.
Qed.

Lemma includes_yellow (s : ServerStatus) :
  known_status s ->
  includes (st_status s) yellow_circle = true <-> st_status s = label Degraded.
Proof.
  intros [h ->]. destruct h; vm_compute; split; congruence.
Qed.

Lemma existsb_Exists {A} (p : A -> bool) (P : A -> Prop) (l : list A) :
  Forall (fun x => p x = true <-> P x) l ->
  existsb p l = true <-> Exists P l.
Proof.
  induction 1 as [|x l Hx _ IH]; simpl.
  - split; [discriminate | intros H; inversion H].
  - rewrite orb_true_iff, Exists_cons, Hx, IH. reflexivity.
Qed.

(** C4. For every sequence of per-server statuses the overall status is
    the worst one: Down (shown as Critical) if some server is Down, else
    Degraded (Warning) if some server is Degraded, else Good (Operational). *)
Theorem overallStatus_worst_of (statuses : list ServerStatus) :
  Forall known_status statuses ->
  let any h := Exists (fun s => st_status s = label h) statuses in
  (any Down -> overallStatus statuses = overall_label Down) /\
  (~ any Down -> any Degraded -> overallStatus statuses = overall_label Degraded) /\
  (~ any Down -> ~ any Degraded -> overallStatus statuses = overall_label Good).
Proof.
  intros Hknown any.
  assert (Hred : existsb (fun s => includes (st_status s) red_circle) statuses = true
                 <-> any Down).
  { apply existsb_Exists. eapply Forall_impl; [|exact Hknown].
    intros s Hs. now apply includes_red. }
  assert (Hyellow : existsb (fun s => includes (st_status s) yellow_circle) statuses = true
                    <-> any Degraded).
  { apply existsb_Exists. eapply Forall_impl; [|exact Hknown].
    intros s Hs. now apply includes_yellow. }
  unfold overallStatus.
  destruct (existsb (fun s => includes (st_status s) red_circle) statuses);
    destruct (existsb (fun s => includes (st_status s) yellow_circle) statuses);
    repeat split; intros; trivial;
    try (exfalso; intuition congruence).
Qed.

Example overallStatus_mixed :
  let st h := {| st_name := "s"; st_status := label h; st_ping := None |} in
  overallStatus [st Good; st Degraded] = overall_label Degraded /\
  overallStatus [st Good; st Down] = overall_label Down /\
  overallStatus [st Degraded; st Down; st Good] = overall_label Down /\
  overallStatus [st Good; st Good] = overall_label Good /\
  overallStatus [] = overall_label Good.
Proof. repeat split. Qed.

Lemma overallStatus_worst_of_witness :
  let statuses :=
    [ {| st_name := "web"; st_status := label Good; st_ping := Some (of_Z 50) |};
      {| st_name := "game"; st_status := label Degraded; st_ping := Some (of_Z 150) |} ] in
  Forall known_status statuses /\
  overallStatus statuses = overall_label Degraded.
Proof.
  intros statuses.
  assert (Hknown : Forall known_status statuses).
  { repeat constructor; [now exists Good | now exists Degraded]. }
  split; [exact Hknown|].
  apply (proj1 (proj2 (overallStatus_worst_of statuses Hknown))).
  - intros H. apply Exists_cons in H.
    destruct H as [H|H]; [vm_compute in H; discriminate H|].
    apply Exists_cons in H.
    destruct H as [H|H]; [vm_compute in H; discriminate H | inversion H].
  - right. now left.
Defined.

(** ** Probes *)

Lemma pingServer_eq (W : World) (ip : string) (t : time) :
  pingServer W ip t =
  {| outcome := Resolved (ping_value W t ip);
     settled_at := t + ping_duration W t ip;
     calls := [(t, PingProbe ip)] |}.
Proof.
  unfold pingServer, try_catch, bind, ping_promise_probe, ping_value,
    ping_duration, perform, ret.
  destruct (ping_reply W t ip) as [[res|] d]; reflexivity.
Qed.

Lemma checkTCPPort_eq (W : World) (ip : string) (port : number) (t : time) :
  valid_port true port = true ->
  checkTCPPort W ip port t =
  let event := socket_first_event 3000 (socket_reply W t port ip) in
  {| outcome := Resolved match fst event with ev_connect => true | _ => false end;
     settled_at := t + snd event;
     calls := [(t, SocketConnect 3000 port ip)] |}.
Proof.
  intros Hport. unfold checkTCPPort, perform. rewrite Hport.
  destruct (socket_first_event 3000 (socket_reply W t port ip)) as [[] d];
    reflexivity.
Qed.

Lemma checkPort_eq (W : World) (server : ServerConfig) (t : time) :
  port_ok server = true ->
  checkPort W server t =
  {| outcome := Resolved (port_value W t server);
     settled_at := t + port_duration W t server;
     calls := [(t, port_call server)] |}.
Proof.
  unfold checkPort, port_value, port_duration, port_call. intros Hport.
  rewrite Hport. unfold port_ok in Hport. destruct (protocol server).
  - now rewrite checkTCPPort_eq.
  - unfold checkUDPPort, perform. rewrite Hport.
    destruct (dgram_reply W t (port server) (ip server)) as [[] d]; reflexivity.
Qed.

(** A port that is not accepted: the call is made, throws, and the port
    check is rejected at once. *)
Lemma checkPort_bad (W : World) (server : ServerConfig) (t : time) :
  port_ok server = false ->
  checkPort W server t =
  {| outcome := Rejected SocketBadPort;
     settled_at := t;
     calls := [(t, port_call server)] |}.
Proof.
  unfold checkPort, port_ok, port_call, checkTCPPort, checkUDPPort.
  destruct (protocol server); now intros ->.
Qed.

Lemma checkPort_trace (W : World) (server : ServerConfig) (t : time) :
  calls (checkPort W server t) = [(t, port_call server)] /\
  settled_at (checkPort W server t) = t + port_duration W t server.
Proof.
  destruct (port_ok server) eqn:Hport.
  - now rewrite checkPort_eq.
  - rewrite checkPort_bad by assumption. unfold port_duration. rewrite Hport.
    cbn [calls settled_at]. now rewrite N.add_0_r.
Qed.

(** [checkServerStatus], whatever the port: the ping, then the port check,
    then the result if the port check resolved. *)
Lemma checkServerStatus_unfold (W : World) (server : ServerConfig) (t : time) :
  checkServerStatus W server t =
  let check := checkPort W server (t + ping_duration W t (ip server)) in
  {| outcome :=
       match outcome check with
       | Resolved isPortOpen =>
           Resolved {| st_name := name server;
                       st_status := classify (ping_value W t (ip server)) isPortOpen;
                       st_ping := ping_value W t (ip server) |}
       | Rejected e => Rejected e
       end;
     settled_at := settled_at check;
     calls := (t, PingProbe (ip server)) :: calls check |}.
Proof.
  unfold checkServerStatus, bind at 1.
  rewrite pingServer_eq. cbn [outcome settled_at calls].
  unfold bind. cbv zeta.
  destruct (checkPort W server (t + ping_duration W t (ip server)))
    as [[isPortOpen|e] settled tr]; cbn [outcome settled_at calls ret app].
  - rewrite app_nil_r. now destruct (ping_value W t (ip server)).
  - reflexivity.
Qed.

Lemma checkServerStatus_eq (W : World) (server : ServerConfig) (t : time) :
  port_ok server = true ->
  checkServerStatus W server t =
  {| outcome := Resolved (status_at W t server);
     settled_at := probed_at W t server;
     calls := [(t, PingProbe (ip server));
               (t + ping_duration W t (ip server), port_call server)] |}.
Proof.
  intros Hport. rewrite checkServerStatus_unfold. cbv zeta.
  now rewrite checkPort_eq.
Qed.

Lemma checkServerStatus_bad (W : World) (server : ServerConfig) (t : time) :
  port_ok server = false ->
  checkServerStatus W server t =
  {| outcome := Rejected SocketBadPort;
     settled_at := t + ping_duration W t (ip server);
     calls := [(t, PingProbe (ip server));
               (t + ping_duration W t (ip server), port_call server)] |}.
Proof.
  intros Hport. rewrite checkServerStatus_unfold. cbv zeta.
  now rewrite checkPort_bad.
Qed.

Lemma checkServerStatus_trace (W : World) (server : ServerConfig) (t : time) :
  calls (checkServerStatus W server t)
  = [(t, PingProbe (ip server));
     (t + ping_duration W t (ip server), port_call server)] /\
  settled_at (checkServerStatus W server t) = probed_at W t server.
Proof.
  rewrite checkServerStatus_unfold. cbv zeta. cbn [calls settled_at].
  destruct (checkPort_trace W server (t + ping_duration W t (ip server)))
    as [-> ->].
  split; reflexivity.
Qed.

Lemma socket_first_event_bound (timeout : N) (b : SocketBehaviour) :
  snd (socket_first_event timeout b) <= timeout.
Proof.
  destruct b as [d|d|]; simpl; try lia;
    destruct (N.ltb_spec d timeout); simpl; lia.
Qed.

Lemma tcp_fails_no_connect (W : World) (t : time) (port : number) (ip : string) :
  tcp_fails W t port ip ->
  fst (socket_first_event 3000 (socket_reply W t port ip)) <> ev_connect.
Proof.
  unfold tcp_fails.
  destruct (socket_reply W t port ip) as [d|d|]; simpl; try discriminate.
  - intros H. destruct (N.ltb_spec d 3000); [lia | discriminate].
  - intros _. destruct (d <? 3000); discriminate.
Qed.




(** ** Order of the two sub-checks *)

(** C8, as stated, fails: with a ping that takes 50 ms the port check is
    started at 50 ms, not together with the ping, and the probe takes the
    sum of the two durations. *)
Lemma subchecks_not_concurrent : ~ subchecks_concurrent healthy_world web 0.
Proof.
  intros [Hcalls _].
  rewrite (proj1 (checkServerStatus_trace healthy_world web 0)) in Hcalls.
  cbn in Hcalls.
  inversion Hcalls as [|? ? _ Hrest]. inversion Hrest as [|? ? Hport _].
  discriminate Hport.
Qed.

(** C8, amended. The two sub-checks run one after the other, for every
    server: the ping is started first, the port check is started at the
    instant the ping has settled, whatever the ping resolved to, and the
    probe settles when the port check has settled.  The result is computed
    from both answers; for a server whose port is accepted the port check
    resolves, and so there is a result. *)
Theorem subchecks_sequential (W : World) (server : ServerConfig) (t : time) :
  let ping := pingServer W (ip server) t in
  let check := checkPort W server (settled_at ping) in
  let r := checkServerStatus W server t in
  calls r = [(t, PingProbe (ip server)); (settled_at ping, port_call server)] /\
  t <= settled_at ping /\
  settled_at r = settled_at check /\
  settled_at ping <= settled_at r /\
  exists pingTime,
    outcome ping = Resolved pingTime /\
    (forall isPortOpen,
       outcome check = Resolved isPortOpen ->
       outcome r = Resolved {| st_name := name server;
                               st_status := classify pingTime isPortOpen;
                               st_ping := pingTime |}) /\
    (port_ok server = true -> exists isPortOpen, outcome check = Resolved isPortOpen).
Proof.
  cbn zeta. rewrite checkServerStatus_unfold, pingServer_eq. cbv zeta.
  cbn [outcome settled_at calls].
  destruct (checkPort_trace W server (t + ping_duration W t (ip server)))
    as [Hcalls Hsettled].
  rewrite Hcalls, Hsettled.
  split; [reflexivity|]. split; [lia|]. split; [reflexivity|]. split; [lia|].
  exists (ping_value W t (ip server)). split; [reflexivity|]. split.
  - intros isPortOpen ->. reflexivity.
  - intros Hport. rewrite (checkPort_eq W server _ Hport). cbn [outcome].
    eexists. reflexivity.
Qed.

(** ** The reporter *)

Section Reporter.

Variable W : World.
Variable botToken channelId : string.
Variable toString : number -> string.

Local Abbreviation notify := (sendDiscordNotification W botToken channelId toString).
Local Abbreviation payload := (messagePayload toString).

Lemma truthy_non_empty (id : string) : id <> "" -> truthy (Some id) = true.
Proof.
  intros H. unfold truthy. apply String.eqb_neq in H. now rewrite H.
Qed.

Lemma truthy_Some (id : option string) :
  truthy id = true -> exists s, id = Some s /\ s <> "".
Proof.
  destruct id as [s|]; [|discriminate]. unfold truthy.
  destruct (String.eqb_spec s ""); [discriminate|]. now exists s.
Qed.

Ltac run_notify :=
  unfold sendDiscordNotification, try_catch, bind, axios_patch,
    axios_post, console_error, perform, ret.

Lemma notify_update_ok (statuses : list ServerStatus) (id : string) (now : time) :
  id <> "" ->
  fst (patch_reply W now (message_url channelId id) (payload statuses now)) = true ->
  notify statuses (Some id) now =
  ({| outcome := Resolved tt;
      settled_at := now + snd (patch_reply W now (message_url channelId id)
                                 (payload statuses now));
      calls := [(now, AxiosPatch (message_url channelId id) (payload statuses now)
                        (headers botToken))] |},
   Some id).
Proof.
  intros Hid Hok. run_notify. rewrite (truthy_non_empty id Hid).
  destruct (patch_reply W now (message_url channelId id) (payload statuses now))
    as [ok d].
  simpl in Hok. subst ok. reflexivity.
Qed.

Lemma notify_update_fail (statuses : list ServerStatus) (id : string) (now : time) :
  id <> "" ->
  fst (patch_reply W now (message_url channelId id) (payload statuses now)) = false ->
  notify statuses (Some id) now =
  let settled := now + snd (patch_reply W now (message_url channelId id)
                              (payload statuses now)) in
  ({| outcome := Resolved tt;
      settled_at := settled;
      calls := [(now, AxiosPatch (message_url channelId id) (payload statuses now)
                        (headers botToken));
                (settled, ConsoleError notification_error AxiosError)] |},
   Some id).
Proof.
  intros Hid Hok. run_notify. rewrite (truthy_non_empty id Hid).
  destruct (patch_reply W now (message_url channelId id) (payload statuses now))
    as [ok d].
  simpl in Hok. subst ok. cbn. now rewrite N.add_0_r.
Qed.

Lemma notify_create_ok (statuses : list ServerStatus) (id : option string)
    (now : time) (created : string) :
  truthy id = false ->
  fst (post_reply W now (messages_url channelId) (payload statuses now)) = Some created ->
  notify statuses id now =
  ({| outcome := Resolved tt;
      settled_at := now + snd (post_reply W now (messages_url channelId)
                                 (payload statuses now));
      calls := [(now, AxiosPost (messages_url channelId) (payload statuses now)
                        (headers botToken))] |},
   Some created).
Proof.
  intros Hid Hok. run_notify. rewrite Hid. fold (payload statuses now).
  destruct (post_reply W now (messages_url channelId) (payload statuses now))
    as [res d].
  simpl in Hok. subst res. reflexivity.
Qed.

Lemma notify_create_fail (statuses : list ServerStatus) (id : option string)
    (now : time) :
  truthy id = false ->
  fst (post_reply W now (messages_url channelId) (payload statuses now)) = None ->
  notify statuses id now =
  let settled := now + snd (post_reply W now (messages_url channelId)
                              (payload statuses now)) in
  ({| outcome := Resolved tt;
      settled_at := settled;
      calls := [(now, AxiosPost (messages_url channelId) (payload statuses now)
                        (headers botToken));
                (settled, ConsoleError notification_error AxiosError)] |},
   id).
Proof.
  intros Hid Hok. run_notify. rewrite Hid. fold (payload statuses now).
  destruct (post_reply W now (messages_url channelId) (payload statuses now))
    as [res d].
  simpl in Hok. subst res. cbn. now rewrite N.add_0_r.
Qed.

(** Whatever Discord answers, the reporter resolves and has made exactly
    one request, at the instant it was called. *)
Lemma notify_one_request (statuses : list ServerStatus) (id : option string)
    (now : time) :
  outcome (fst (notify statuses id now)) = Resolved tt /\
  exists request,
    select is_publish (calls (fst (notify statuses id now))) = [(now, request)] /\
    request =
      if truthy id
      then AxiosPatch (message_url channelId match id with Some s => s | None => "null" end)
             (payload statuses now) (headers botToken)
      else AxiosPost (messages_url channelId) (payload statuses now) (headers botToken).
Proof.
  destruct (truthy id) eqn:Hid.
  - destruct (truthy_Some id Hid) as (s & -> & Hs).
    destruct (fst (patch_reply W now (message_url channelId s) (payload statuses now)))
      eqn:Hok.
    + rewrite (notify_update_ok statuses s now Hs Hok). cbn. eauto.
    + rewrite (notify_update_fail statuses s now Hs Hok). cbn. eauto.
  - destruct (fst (post_reply W now (messages_url channelId) (payload statuses now)))
      as [created|] eqn:Hok.
    + rewrite (notify_create_ok statuses id now created Hid Hok). cbn. eauto.
    + rewrite (notify_create_fail statuses id now Hid Hok). cbn. eauto.
Qed.

(** C6. When the request to Discord fails, the reporter logs the error
    with [console.error], leaves [discordMessageId] as it was and resolves:
    nothing is thrown to the caller.  The next call therefore makes the
    same kind of request again, an update of the same message if the
    variable held an id and a create otherwise. *)
Theorem publish_failure_keeps_handle (statuses : list ServerStatus)
    (id : option string) (now : time) :
  publish_fails W channelId toString statuses id now ->
  let r := notify statuses id now in
  snd r = id /\
  outcome (fst r) = Resolved tt /\
  select is_log (calls (fst r))
    = [(settled_at (fst r), ConsoleError notification_error AxiosError)] /\
  forall statuses' now',
    select is_publish (calls (fst (notify statuses' (snd r) now')))
    = [(now',
        if truthy id
        then AxiosPatch (message_url channelId match id with Some s => s | None => "null" end)
               (payload statuses' now') (headers botToken)
        else AxiosPost (messages_url channelId) (payload statuses' now')
               (headers botToken))].
Proof.
  intros Hfail. cbn zeta.
  assert (Hstate : snd (notify statuses id now) = id /\
                   outcome (fst (notify statuses id now)) = Resolved tt /\
                   select is_log (calls (fst (notify statuses id now)))
                   = [(settled_at (fst (notify statuses id now)),
                       ConsoleError notification_error AxiosError)]).
  { unfold publish_fails in Hfail. destruct (truthy id) eqn:Hid.
    - destruct (truthy_Some id Hid) as (s & -> & Hs). cbn in Hfail.
      rewrite (notify_update_fail statuses s now Hs Hfail). cbn. auto.
    - assert (Hpost : fst (post_reply W now (messages_url channelId)
                             (payload statuses now)) = None).
      { destruct id; exact Hfail. }
      rewrite (notify_create_fail statuses id now Hid Hpost). cbn. auto. }
  destruct Hstate as (Hid & Hres & Hlog).
  repeat split; trivial.
  intros statuses' now'. rewrite Hid.
  destruct (notify_one_request statuses' id now') as (_ & request & -> & ->).
  reflexivity.
Qed.

End Reporter.

Lemma publish_failure_keeps_handle_witness :
  publish_fails discord_down_world "42" show_number [] (Some "1001") 0 /\
  snd (sendDiscordNotification discord_down_world "token" "42" show_number []
         (Some "1001") 0) = Some "1001".
Proof.
  assert (Hfail : publish_fails discord_down_world "42" show_number []
                    (Some "1001") 0) by reflexivity.
  split; [exact Hfail|].
  exact (proj1 (publish_failure_keeps_handle discord_down_world "token" "42"
                  show_number [] (Some "1001") 0 Hfail)).
Defined.

(** ** Repeated reporting *)

Section Idempotence.

Variable W : World.
Variable botToken channelId : string.
Variable toString : number -> string.

Local Abbreviation notify := (sendDiscordNotification W botToken channelId toString).
Local Abbreviation report := (report_all W botToken channelId toString).

Lemma report_all_cons (now : time) (statuses : list ServerStatus)
    (rest : list (time * list ServerStatus)) (id : option string) :
  report ((now, statuses) :: rest) id =
  ((calls (fst (notify statuses id now))
    ++ fst (report rest (snd (notify statuses id now))))%list,
   snd (report rest (snd (notify statuses id now)))).
Proof.
  cbn [report_all]. destruct (notify statuses id now) as [r id1].
  cbn [fst snd]. destruct (report rest id1). reflexivity.
Qed.

(** Once the variable holds a non-empty id, every further report is an
    update of that message and the variable does not change. *)
Lemma report_all_updates (runs : list (time * list ServerStatus)) (id : string) :
  id <> "" ->
  (forall t url p, fst (patch_reply W t url p) = true) ->
  snd (report runs (Some id)) = Some id /\
  select is_create (fst (report runs (Some id))) = [] /\
  List.length (select is_update (fst (report runs (Some id)))) = List.length runs /\
  Forall (fun url => url = message_url channelId id)
         (updated_urls (fst (report runs (Some id)))).
Proof.
  intros Hid Hpatch.
  induction runs as [|[now statuses] rest (IHid & IHc & IHu & IHurl)].
  - repeat split. constructor.
  - rewrite report_all_cons.
    rewrite (notify_update_ok W botToken channelId toString statuses id now Hid
               (Hpatch _ _ _)).
    cbn [fst snd calls]. unfold select, updated_urls in *. cbn.
    repeat split; auto.
Qed.

(** C3, amended. Let the reporter be called [N >= 1] times in sequence,
    starting with the variable unset, every request succeeding and every
    created message coming back with a non-empty id.  Then there is exactly
    one create and there are [N - 1] updates, all addressed to the id the
    variable holds; the variable holds that id from the first call on. *)
Theorem report_all_idempotent (runs : list (time * list ServerStatus)) :
  runs <> [] ->
  publishes_succeed W ->
  ids_non_empty W ->
  one_create_then_updates channelId (List.length runs)
    (report runs initial_discordMessageId) /\
  forall k, (0 < k <= List.length runs)%nat ->
    snd (report (firstn k runs) initial_discordMessageId)
    = snd (report runs initial_discordMessageId).
Proof.
  intros Hruns [Hpatch Hpost] Hids.
  destruct runs as [|[now statuses] rest]; [contradiction|].
  unfold initial_discordMessageId.
  destruct (fst (post_reply W now (messages_url channelId)
                   (messagePayload toString statuses now)))
    as [created|] eqn:Hcreated; [|now apply Hpost in Hcreated].
  assert (Hne : created <> "").
  { intros ->. now apply Hids in Hcreated. }
  pose proof (notify_create_ok W botToken channelId toString statuses None now
                created eq_refl Hcreated) as Hfirst.
  split.
  - destruct (report_all_updates rest created Hne Hpatch) as (Hid & Hc & Hu & Hurl).
    exists created. rewrite report_all_cons, Hfirst. cbn [fst snd calls].
    unfold select, updated_urls in *. cbn.
    repeat split; auto.
    + now rewrite Hc.
    + now rewrite Hu, Nat.sub_0_r.
  - intros [|k] Hk; [lia|]. cbn [firstn].
    rewrite !report_all_cons, Hfirst. cbn [fst snd].
    destruct (report_all_updates rest created Hne Hpatch) as (-> & _).
    now destruct (report_all_updates (firstn k rest) created Hne Hpatch) as (-> & _).
Qed.

End Idempotence.

Lemma healthy_world_publishes : publishes_succeed healthy_world /\ ids_non_empty healthy_world.
Proof.
  repeat split; intros; cbv; congruence.
Defined.

Lemma report_all_idempotent_witness :
  let runs := [(0, []); (30000, []); (60000, [])] in
  runs <> [] /\ publishes_succeed healthy_world /\ ids_non_empty healthy_world /\
  one_create_then_updates "42" 3
    (report_all healthy_world "token" "42" show_number runs None).
Proof.
  intros runs.
  assert (Hruns : runs <> []) by discriminate.
  split; [exact Hruns|].
  split; [exact (proj1 healthy_world_publishes)|].
  split; [exact (proj2 healthy_world_publishes)|].
  exact (proj1 (report_all_idempotent healthy_world "token" "42" show_number runs
                  Hruns (proj1 healthy_world_publishes)
                  (proj2 healthy_world_publishes))).
Defined.

(** C3, as stated, fails: every request succeeds, yet a created message
    that comes back with an empty id leaves the variable falsy, and the
    second report creates a second message instead of updating the first. *)
Lemma report_all_empty_id_creates_twice :
  publishes_succeed empty_id_world /\
  ~ one_create_then_updates "42" 2
      (report_all empty_id_world "token" "42" show_number
         [(0, []); (30000, [])] initial_discordMessageId).
Proof.
  split.
  - split; intros; cbv; congruence.
  - intros (id & _ & Hcreates & _). vm_compute in Hcreates. discriminate Hcreates.
Qed.

(** ** [Promise.all] *)

Lemma Promise_all_calls {A} (tasks : list (Task A)) (t : time) :
  calls (Promise_all tasks t) = List.concat (map (fun task => calls (task t)) tasks).
Proof.
  unfold Promise_all.
  destruct (first_rejection (map (fun task => task t) tasks)) as [[t' e]|];
    cbn [calls]; now rewrite map_map.
Qed.

Lemma first_rejection_None {A} (rs : list (Settled A)) :
  Forall (fun r => exists a, outcome r = Resolved a) rs ->
  first_rejection rs = None.
Proof.
  induction 1 as [|r rs [a Ha] _ IH]; simpl; [reflexivity|].
  now rewrite Ha, IH.
Qed.

Lemma first_rejection_Some {A} (rs : list (Settled A)) :
  Exists (fun r => exists e, outcome r = Rejected e) rs ->
  exists t e, first_rejection rs = Some (t, e).
Proof.
  induction rs as [|r rs IH]; intros H; [inversion H|].
  simpl. destruct (outcome r) as [a|e] eqn:Hr.
  - apply IH. inversion H as [? ? [e He]|]; [congruence | assumption].
  - destruct (first_rejection rs) as [[t' e']|]; [|eauto].
    destruct (settled_at r <=? t'); eauto.
Qed.

(** When every task resolves, so does [Promise.all], with the values in
    the order of the array, at the instant the last task settled. *)
Lemma Promise_all_resolved {A B} (f : A -> Task B) (v : A -> B) (l : list A)
    (t : time) :
  (forall a, outcome (f a t) = Resolved (v a)) ->
  Promise_all (map f l) t =
  {| outcome := Resolved (map v l);
     settled_at := fold_right (fun a acc => N.max (settled_at (f a t)) acc) t l;
     calls := flat_map (fun a => calls (f a t)) l |}.
Proof.
  intros Hres. unfold Promise_all. rewrite map_map.
  rewrite first_rejection_None.
  - f_equal.
    + f_equal. induction l as [|a l IH]; simpl; [reflexivity|].
      now rewrite Hres, IH.
    + unfold last_settled. induction l as [|a l IH]; simpl; [reflexivity|].
      now rewrite IH.
    + rewrite map_map. now rewrite flat_map_concat_map.
  - apply Forall_forall. intros r Hr. apply in_map_iff in Hr.
    destruct Hr as (a & <- & _). eauto.
Qed.

Lemma fold_max_ge {A} (e : A -> time) (t : time) (l : list A) :
  t <= fold_right (fun a acc => N.max (e a) acc) t l /\
  forall a, In a l -> e a <= fold_right (fun a acc => N.max (e a) acc) t l.
Proof.
  induction l as [|b l [IHt IHl]]; simpl.
  - split; [lia | contradiction].
  - split; [lia|]. intros a [<-|Ha]; [lia|]. specialize (IHl a Ha). lia.
Qed.

(** ** Reading traces *)

Lemma select_app (p : Call -> bool) (tr tr' : list (time * Call)) :
  select p (tr ++ tr') = (select p tr ++ select p tr')%list.
Proof. apply filter_app. Qed.

Lemma select_none (p : Call -> bool) (tr : list (time * Call)) :
  Forall (fun c => p (snd c) = false) tr -> select p tr = [].
Proof.
  induction 1 as [|c tr Hc _ IH]; simpl; [reflexivity|]. now rewrite Hc.
Qed.

Lemma select_all (p : Call -> bool) (tr : list (time * Call)) :
  Forall (fun c => p (snd c) = true) tr -> select p tr = tr.
Proof.
  induction 1 as [|c tr Hc _ IH]; simpl; [reflexivity|]. now rewrite Hc, IH.
Qed.

Lemma inserted_app (tr tr' : list (time * Call)) :
  inserted (tr ++ tr') = (inserted tr ++ inserted tr')%list.
Proof. apply flat_map_app. Qed.

Lemma inserted_none (tr : list (time * Call)) :
  Forall (fun c => is_insert (snd c) = false) tr -> inserted tr = [].
Proof.
  induction 1 as [|[t c] tr Hc _ IH]; simpl; [reflexivity|].
  destruct c; try discriminate Hc; exact IH.
Qed.

Lemma probe_calls_kind (W : World) (servers : list ServerConfig) (t : time) :
  Forall (fun c => is_insert (snd c) = false /\ is_publish (snd c) = false /\
                   is_log (snd c) = false)
         (probe_calls W servers t).
Proof.
  unfold probe_calls. induction servers as [|s servers IH]; simpl.
  - constructor.
  - constructor; [now repeat split|].
    constructor; [|exact IH].
    unfold port_call. destruct (protocol s); now repeat split.
Qed.

Lemma first_rejection_In {A} (rs : list (Settled A)) (t' : time) (e : Error) :
  first_rejection rs = Some (t', e) ->
  exists r, In r rs /\ outcome r = Rejected e /\ settled_at r = t'.
Proof.
  induction rs as [|r rs IH]; simpl; [discriminate|].
  destruct (outcome r) as [a|e0] eqn:Hr.
  - intros H. destruct (IH H) as (r' & Hin & Hr'). exists r'. auto.
  - destruct (first_rejection rs) as [[t1 e1]|].
    + destruct (settled_at r <=? t1); intros [= <- <-].
      * exists r. auto.
      * destruct (IH eq_refl) as (r' & Hin & Hr'). exists r'. auto.
    + intros [= <- <-]. exists r. auto.
Qed.

Lemma first_rejection_None_inv {A} (rs : list (Settled A)) :
  first_rejection rs = None ->
  Forall (fun r => exists a, outcome r = Resolved a) rs.
Proof.
  induction rs as [|r rs IH]; simpl; [constructor|].
  destruct (outcome r) as [a|e] eqn:Hr.
  - intros H. constructor; eauto.
  - destruct (first_rejection rs) as [[t1 e1]|]; [|discriminate].
    destruct (settled_at r <=? t1); discriminate.
Qed.

(** ** The probes of a cycle *)

Lemma ports_in_range_dec (servers : list ServerConfig) :
  ports_in_range servers \/ Exists (fun server => port_ok server = false) servers.
Proof.
  induction servers as [|s l [IH|IH]].
  - left. constructor.
  - destruct (port_ok s) eqn:Hs.
    + left. now constructor.
    + right. now left.
  - right. now right.
Qed.

Lemma probes_trace (W : World) (servers : list ServerConfig) (t : time) :
  calls (Promise_all (map (checkServerStatus W) servers) t) = probe_calls W servers t.
Proof.
  rewrite Promise_all_calls, map_map. unfold probe_calls.
  rewrite flat_map_concat_map. f_equal. apply map_ext. intros s.
  apply (proj1 (checkServerStatus_trace W s t)).
Qed.

Lemma probes_last_settled (W : World) (servers : list ServerConfig) (t : time) :
  last_settled t (map (fun server => checkServerStatus W server t) servers)
  = probes_settled W servers t.
Proof.
  unfold last_settled, probes_settled.
  induction servers as [|s l IH]; simpl; [reflexivity|].
  now rewrite IH, (proj2 (checkServerStatus_trace W s t)).
Qed.

(** With every port accepted the first [Promise.all] of the cycle
    resolves, with the statuses in the order of the servers, at the
    instant the last probe settled. *)
Lemma probes_resolve (W : World) (servers : list ServerConfig) (t : time) :
  ports_in_range servers ->
  Promise_all (map (checkServerStatus W) servers) t =
  {| outcome := Resolved (cycle_statuses W servers t);
     settled_at := probes_settled W servers t;
     calls := probe_calls W servers t |}.
Proof.
  intros Hports.
  assert (Hnone : first_rejection
                    (map (fun server => checkServerStatus W server t) servers) = None).
  { apply first_rejection_None. apply Forall_forall. intros r Hr.
    apply in_map_iff in Hr. destruct Hr as (s & <- & Hin).
    rewrite (checkServerStatus_eq W s t (proj1 (Forall_forall _ _) Hports s Hin)).
    cbn [outcome]. eexists. reflexivity. }
  pose proof (probes_trace W servers t) as Htrace.
  unfold Promise_all in *. rewrite map_map in *. rewrite Hnone in *.
  cbn [calls] in Htrace. rewrite Htrace, probes_last_settled. f_equal. f_equal.
  unfold cycle_statuses. clear Htrace Hnone.
  induction Hports as [|s l Hs _ IH]; simpl; [reflexivity|].
  now rewrite (checkServerStatus_eq W s t Hs), IH.
Qed.

(** With a port that is refused, the first [Promise.all] rejects with the
    error thrown by the port check. *)
Lemma probes_reject (W : World) (servers : list ServerConfig) (t : time) :
  Exists (fun server => port_ok server = false) servers ->
  exists t',
    Promise_all (map (checkServerStatus W) servers) t =
    {| outcome := Rejected SocketBadPort;
       settled_at := t';
       calls := probe_calls W servers t |}.
Proof.
  intros Hbad. pose proof (probes_trace W servers t) as Htrace.
  unfold Promise_all in *. rewrite map_map in *.
  destruct (first_rejection (map (fun server => checkServerStatus W server t) servers))
    as [[t' e]|] eqn:Hfirst; cbn [calls] in Htrace.
  - exists t'. rewrite Htrace. f_equal.
    apply first_rejection_In in Hfirst. destruct Hfirst as (r & Hr & He & _).
    apply in_map_iff in Hr. destruct Hr as (s & <- & _).
    destruct (port_ok s) eqn:Hs.
    + rewrite (checkServerStatus_eq W s t Hs) in He. discriminate He.
    + rewrite (checkServerStatus_bad W s t Hs) in He. now injection He as <-.
  - exfalso. apply first_rejection_None_inv in Hfirst.
    apply Exists_exists in Hbad. destruct Hbad as (s & Hin & Hs).
    rewrite Forall_forall in Hfirst.
    destruct (Hfirst (checkServerStatus W s t)) as [a Ha].
    + apply in_map_iff. now exists s.
    + rewrite (checkServerStatus_bad W s t Hs) in Ha. discriminate Ha.
Qed.

(** ** One cycle *)

Section Cycle.

Variable W : World.
Variable servers : list ServerConfig.
Variable botToken channelId : string.
Variable toString : number -> string.

Local Abbreviation notify := (sendDiscordNotification W botToken channelId toString).
Local Abbreviation cycle := (monitorServers W servers botToken channelId toString).

Lemma db_run_eq (row : Row) (t : time) :
  db_run W row t =
  {| outcome := if fst (db_run_reply W t row) then Resolved tt else Rejected SqliteError;
     settled_at := t + snd (db_run_reply W t row);
     calls := [(t, DbRun row)] |}.
Proof.
  unfold db_run, perform. now destruct (db_run_reply W t row).
Qed.

(** Every INSERT of the cycle is issued, one per status and in their
    order, at the instant the probes have settled. *)
Lemma writes_calls (t : time) :
  calls (writes W servers t) =
  map (fun status => (probes_settled W servers t, DbRun (insert_params servers status)))
      (cycle_statuses W servers t).
Proof.
  unfold writes. rewrite Promise_all_calls, map_map.
  induction (cycle_statuses W servers t) as [|status l IH]; simpl; [reflexivity|].
  now rewrite db_run_eq, IH.
Qed.

Lemma writes_kind (t : time) :
  Forall (fun c => is_insert (snd c) = true /\ is_publish (snd c) = false /\
                   is_log (snd c) = false)
         (calls (writes W servers t)).
Proof.
  rewrite writes_calls. apply Forall_forall. intros c Hc.
  apply in_map_iff in Hc. destruct Hc as (status & <- & _). now repeat split.
Qed.

Lemma writes_inserted (t : time) :
  inserted (calls (writes W servers t))
  = map (insert_params servers) (cycle_statuses W servers t).
Proof.
  rewrite writes_calls.
  induction (cycle_statuses W servers t) as [|status l IH]; simpl; [reflexivity|].
  now rewrite <- IH.
Qed.

(** The cycle over servers whose ports are accepted, step by step: the
    probes, then the writes, then, if no write was rejected, the report. *)
Lemma monitorServers_eq (id : option string) (t : time) :
  ports_in_range servers ->
  cycle id t =
  let w := writes W servers t in
  match outcome w with
  | Resolved _ =>
      let n := notify (cycle_statuses W servers t) id (settled_at w) in
      ({| outcome := outcome (fst n);
          settled_at := settled_at (fst n);
          calls := (probe_calls W servers t ++ calls w ++ calls (fst n))%list |},
       snd n)
  | Rejected e =>
      ({| outcome := Rejected e;
          settled_at := settled_at w;
          calls := (probe_calls W servers t ++ calls w)%list |},
       id)
  end.
Proof.
  intros Hports. unfold monitorServers, sbind, lift, bind. cbv zeta.
  rewrite (probes_resolve W servers t Hports). cbn [outcome settled_at calls].
  fold (cycle_statuses W servers t). fold (writes W servers t).
  destruct (outcome (writes W servers t)) as [vs|e]; cbn [outcome settled_at calls ret].
  - destruct (notify (cycle_statuses W servers t) id (settled_at (writes W servers t)))
      as [r id'].
    cbn [fst snd]. now rewrite !app_nil_r, <- app_assoc.
  - reflexivity.
Qed.

(** The cycle over servers one of which has a port that is refused: the
    probes are made, the first [Promise.all] rejects, and nothing else
    happens. *)
Lemma monitorServers_bad (id : option string) (t : time) :
  Exists (fun server => port_ok server = false) servers ->
  exists t',
    cycle id t =
    ({| outcome := Rejected SocketBadPort;
        settled_at := t';
        calls := probe_calls W servers t |}, id).
Proof.
  intros Hbad. destruct (probes_reject W servers t Hbad) as [t' Hprobes].
  exists t'. unfold monitorServers, sbind, lift, bind. cbv zeta.
  rewrite Hprobes. reflexivity.
Qed.

Lemma notify_kind (statuses : list ServerStatus) (id : option string) (now : time) :
  Forall (fun c => is_insert (snd c) = false)
         (calls (fst (notify statuses id now))).
Proof.
  destruct (truthy id) eqn:Hid.
  - destruct (truthy_Some id Hid) as (s & -> & Hs).
    destruct (fst (patch_reply W now (message_url channelId s)
                     (messagePayload toString statuses now))) eqn:Hok.
    + rewrite (notify_update_ok _ _ _ _ statuses s now Hs Hok). now repeat constructor.
    + rewrite (notify_update_fail _ _ _ _ statuses s now Hs Hok). now repeat constructor.
  - destruct (fst (post_reply W now (messages_url channelId)
                     (messagePayload toString statuses now))) as [created|] eqn:Hok.
    + rewrite (notify_create_ok _ _ _ _ statuses id now created Hid Hok).
      now repeat constructor.
    + rewrite (notify_create_fail _ _ _ _ statuses id now Hid Hok).
      now repeat constructor.
Qed.

Lemma cycle_inserted (id : option string) (t : time) :
  ports_in_range servers ->
  inserted (calls (fst (cycle id t)))
  = map (insert_params servers) (cycle_statuses W servers t).
Proof.
  intros Hports. rewrite (monitorServers_eq id t Hports). cbn zeta.
  assert (Hprobes : inserted (probe_calls W servers t) = []).
  { apply inserted_none. eapply Forall_impl; [|apply probe_calls_kind]. now intros c []. }
  destruct (outcome (writes W servers t)); cbn [fst calls];
    rewrite !inserted_app, Hprobes, writes_inserted; [|reflexivity].
  rewrite (inserted_none _ (notify_kind _ _ _)). cbn [app]. now rewrite app_nil_r.
Qed.

Lemma cycle_published (id : option string) (t : time) :
  ports_in_range servers ->
  select is_publish (calls (fst (cycle id t))) =
  match outcome (writes W servers t) with
  | Resolved _ =>
      select is_publish
        (calls (fst (notify (cycle_statuses W servers t) id
                       (settled_at (writes W servers t)))))
  | Rejected _ => []
  end.
Proof.
  intros Hports. rewrite (monitorServers_eq id t Hports). cbn zeta.
  assert (Hprobes : select is_publish (probe_calls W servers t) = []).
  { apply select_none. eapply Forall_impl; [|apply probe_calls_kind]. now intros c (_ & ? & _). }
  assert (Hwrites : select is_publish (calls (writes W servers t)) = []).
  { apply select_none. eapply Forall_impl; [|apply writes_kind]. now intros c (_ & ? & _). }
  destruct (outcome (writes W servers t)); cbn [fst calls];
    rewrite !select_app, Hprobes, Hwrites; reflexivity.
Qed.

Lemma probe_fails_Down (t : time) (server : ServerConfig) :
  probe_fails W t server -> st_status (status_at W t server) = label Down.
Proof.
  unfold probe_fails, status_at. cbn [st_status]. intros [-> | ->]; [reflexivity|].
  now destruct (ping_value W t (ip server)).
Qed.

Lemma published_fields_request (statuses : list ServerStatus) (id : option string)
    (now : time) :
  published_fields
    (if truthy id
     then AxiosPatch (message_url channelId match id with Some s => s | None => "null" end)
            (messagePayload toString statuses now) (headers botToken)
     else AxiosPost (messages_url channelId) (messagePayload toString statuses now)
            (headers botToken))
  = map (serverField toString) statuses.
Proof.
  destruct (truthy id); cbn; apply app_nil_r.
Qed.

(** When no INSERT is rejected the cycle makes its one request to
    Discord, at the instant the last INSERT settled, with one field per
    server. *)
Lemma cycle_report (id : option string) (t : time) (vs : list unit) :
  ports_in_range servers ->
  outcome (writes W servers t) = Resolved vs ->
  exists request,
    select is_publish (calls (fst (cycle id t)))
    = [(settled_at (writes W servers t), request)] /\
    published_fields request
    = map (serverField toString) (cycle_statuses W servers t).
Proof.
  intros Hports Hw. rewrite (cycle_published id t Hports), Hw.
  destruct (notify_one_request W botToken channelId toString
              (cycle_statuses W servers t) id (settled_at (writes W servers t)))
    as (_ & request & -> & ->).
  eexists. split; [reflexivity|]. apply published_fields_request.
Qed.


(** A rejected INSERT rejects the cycle: no report is made, nothing is
    logged and [discordMessageId] is left as it was. *)
Lemma write_failure_rejects (id : option string) (t : time) (e : Error) :
  ports_in_range servers ->
  outcome (writes W servers t) = Rejected e ->
  outcome (fst (cycle id t)) = Rejected e /\
  select is_publish (calls (fst (cycle id t))) = [] /\
  select is_log (calls (fst (cycle id t))) = [] /\
  snd (cycle id t) = id.
Proof.
  intros Hports Hw. rewrite (cycle_published id t Hports).
  rewrite (monitorServers_eq id t Hports). cbn zeta.
  rewrite Hw. cbn [fst snd outcome calls]. repeat split.
  rewrite select_app. rewrite !select_none; [reflexivity| |].
  - eapply Forall_impl; [|apply writes_kind]. now intros c (_ & _ & ?).
  - eapply Forall_impl; [|apply probe_calls_kind]. now intros c (_ & _ & ?).
Qed.

Lemma cycle_inserts (id : option string) (t : time) :
  ports_in_range servers ->
  select is_insert (calls (fst (cycle id t))) = calls (writes W servers t).
Proof.
  intros Hports. rewrite (monitorServers_eq id t Hports). cbn zeta.
  assert (Hprobes : select is_insert (probe_calls W servers t) = []).
  { apply select_none. eapply Forall_impl; [|apply probe_calls_kind]. now intros c []. }
  assert (Hwrites : select is_insert (calls (writes W servers t))
                    = calls (writes W servers t)).
  { apply select_all. eapply Forall_impl; [|apply writes_kind]. now intros c []. }
  destruct (outcome (writes W servers t)); cbn [fst calls];
    rewrite !select_app, Hprobes, Hwrites; [|reflexivity].
  rewrite (select_none _ _ (notify_kind _ _ _)). cbn [app]. apply app_nil_r.
Qed.

Lemma Promise_all_waits {A} (tasks : list (Task A)) (t : time) (vs : list A) :
  outcome (Promise_all tasks t) = Resolved vs ->
  t <= settled_at (Promise_all tasks t) /\
  forall task, In task tasks -> settled_at (task t) <= settled_at (Promise_all tasks t).
Proof.
  unfold Promise_all.
  destruct (first_rejection (map (fun task => task t) tasks)) as [[t' e]|];
    [discriminate|].
  intros _. cbn [settled_at]. unfold last_settled.
  destruct (fold_max_ge (@settled_at A) t (map (fun task => task t) tasks))
    as [Ht Hall].
  split; [exact Ht|]. intros task Htask. apply Hall.
  apply in_map_iff. now exists task.
Qed.

(** C9, amended. In every cycle over servers whose ports are accepted the
    INSERTs are issued together, at the instant the probes have settled,
    and none of them waits for the report.  The report is issued after
    them: when every INSERT has resolved, the one request to Discord is
    made at the instant the last INSERT settled. *)
Theorem report_waits_for_writes (id : option string) (t : time) :
  ports_in_range servers ->
  let tr := calls (fst (cycle id t)) in
  let T := probes_settled W servers t in
  select is_insert tr
  = map (fun status => (T, DbRun (insert_params servers status)))
        (cycle_statuses W servers t) /\
  (forall vs, outcome (writes W servers t) = Resolved vs ->
     let done := settled_at (writes W servers t) in
     (exists request, select is_publish tr = [(done, request)]) /\
     T <= done /\
     forall status, In status (cycle_statuses W servers t) ->
       settled_at (db_run W (insert_params servers status) T) <= done).
Proof.
  intros Hports. cbn zeta. rewrite (cycle_inserts id t Hports), writes_calls.
  split; [reflexivity|]. intros vs Hw.
  destruct (cycle_report id t vs Hports Hw) as (request & -> & _).
  split; [now exists request|].
  destruct (Promise_all_waits _ _ _ Hw) as [HT Hall].
  split; [exact HT|]. intros status Hstatus.
  apply (Hall (db_run W (insert_params servers status))).
  apply in_map_iff. now exists status.
Qed.

(** C10. The result carries the latency whatever the classification.  In a
    cycle over servers whose ports are accepted, a server whose ping
    measured [n] while its port check resolved to false is Down, yet its
    result, the row inserted for it and its entry in the published details
    all hold [n], not null or N/A. *)
Theorem latency_kept_when_port_closed (id : option string) (t : time)
    (server : ServerConfig) (n : number) :
  ports_in_range servers ->
  In server servers ->
  ping_value W t (ip server) = Some n ->
  port_value W (t + ping_duration W t (ip server)) server = false ->
  let status := {| st_name := name server; st_status := label Down;
                   st_ping := Some n |} in
  let tr := calls (fst (cycle id t)) in
  outcome (checkServerStatus W server t) = Resolved status /\
  In (insert_params servers status) (inserted tr) /\
  row_status (insert_params servers status) = label Down /\
  row_ping (insert_params servers status) = Some n /\
  field_value (serverField toString status)
  = (label Down ++ " | Ping: " ++ toString n ++ " ms")%string /\
  (forall vs, outcome (writes W servers t) = Resolved vs ->
     exists now request,
       select is_publish tr = [(now, request)] /\
       In (serverField toString status) (published_fields request)).
Proof.
  intros Hports Hin Hping Hport. cbn zeta.
  assert (Hok : port_ok server = true)
    by exact (proj1 (Forall_forall _ _) Hports server Hin).
  assert (Hstatus : status_at W t server
                    = {| st_name := name server; st_status := label Down;
                         st_ping := Some n |}).
  { unfold status_at. now rewrite Hping, Hport. }
  assert (Hcycle : In {| st_name := name server; st_status := label Down;
                         st_ping := Some n |} (cycle_statuses W servers t)).
  { rewrite <- Hstatus. now apply in_map. }
  repeat apply conj; try reflexivity.
  - now rewrite (checkServerStatus_eq W server t Hok), Hstatus.
  - rewrite (cycle_inserted id t Hports). now apply in_map.
  - intros vs Hw.
    destruct (cycle_report id t vs Hports Hw) as (request & Hsel & Hfields).
    exists (settled_at (writes W servers t)), request.
    split; [exact Hsel|]. rewrite Hfields. now apply in_map.
Qed.

End Cycle.

(** ** Cycles in the sample worlds *)

(** Three servers, Good, Degraded and unreachable: three rows, one create,
    overall status Critical, and the id of the message is kept. *)
Example cycle_end_to_end :
  let r := monitorServers mixed_world [web; game; backup] "token" "42" show_number
             initial_discordMessageId 0 in
  outcome (fst r) = Resolved tt /\
  map (fun row => (row_name row, row_status row, row_ping row)) (inserted (calls (fst r)))
  = [("web", label Good, Some (of_Z 50));
     ("game", label Degraded, Some (of_Z 150));
     ("backup", label Down, None)] /\
  List.length (select is_publish (calls (fst r))) = 1%nat /\
  List.length (select is_create (calls (fst r))) = 1%nat /\
  overallStatus (cycle_statuses mixed_world [web; game; backup] 0) = overall_label Down /\
  snd r = Some "1001".
Proof. vm_compute. repeat split. Qed.

Lemma sample_ports_in_range : ports_in_range [web; game; backup].
Proof. repeat constructor. Defined.



(** C7 fails on the code. In a cycle over two servers in which SQLite
    rejects the INSERT for the first one, both INSERTs are issued, but the
    rejection leaves [monitorServers] and the timer callback rejected:
    [sendDiscordNotification] is never called, so no report is made, and
    nothing is logged. *)
Theorem storage_failure_rejects_cycle :
  let r := fst (timerCallback failing_db_world [web; game] "token" "42" show_number
                  initial_discordMessageId 0) in
  fst (db_run_reply failing_db_world 60 (insert_params [web; game]
         (status_at failing_db_world 0 web))) = false /\
  outcome r = Rejected SqliteError /\
  map row_name (inserted (calls r)) = ["web"; "game"] /\
  select is_publish (calls r) = [] /\
  select is_log (calls r) = [].
Proof. vm_compute. repeat split. Qed.

(** The same on the first run, which [startMonitoring] awaits itself. *)
Example storage_failure_rejects_first_run :
  let r := fst (startMonitoring failing_db_world [web; game] "token" "42" show_number
                  initial_discordMessageId 0) in
  outcome r = Rejected SqliteError /\
  select is_publish (calls r) = [] /\
  select is_log (calls r) = [].
Proof. vm_compute. repeat split. Qed.

(** A refused request to Discord, by contrast, is caught where it is made:
    the cycle resolves and the error is logged. *)
Example discord_failure_is_contained :
  let r := fst (timerCallback discord_down_world [web; game] "token" "42" show_number
                  initial_discordMessageId 0) in
  outcome r = Resolved tt /\
  List.length (select is_log (calls r)) = 1%nat.
Proof. vm_compute. repeat split. Qed.

(** C9, as stated, fails: in a cycle over one server the probe settles at
    60 ms and the INSERT is issued then, but the request to Discord is
    issued at 65 ms, once the INSERT, which takes 5 ms, has resolved. *)
Lemma report_not_concurrent_with_writes :
  ~ record_and_report_concurrent healthy_world [web] "token" "42" show_number
      initial_discordMessageId 0.
Proof.
  intros (_ & _ & Hpublish). vm_compute in Hpublish.
  inversion Hpublish as [|? ? Hat _]. discriminate Hat.
Qed.

Lemma report_waits_for_writes_witness :
  ports_in_range [web; game] /\
  select is_insert
    (calls (fst (monitorServers healthy_world [web; game] "token" "42" show_number
                   None 0)))
  = map (fun status => (60, DbRun (insert_params [web; game] status)))
        (cycle_statuses healthy_world [web; game] 0).
Proof.
  assert (Hports : ports_in_range [web; game]) by (repeat constructor).
  split; [exact Hports|].
  exact (proj1 (report_waits_for_writes healthy_world [web; game] "token" "42"
                  show_number None 0 Hports)).
Defined.

Lemma latency_kept_when_port_closed_witness :
  ports_in_range [web] /\
  In web [web] /\
  ping_value closed_port_world 0 (ip web) = Some (of_Z 50) /\
  port_value closed_port_world 50 web = false /\
  outcome (checkServerStatus closed_port_world web 0)
  = Resolved {| st_name := "web"; st_status := label Down; st_ping := Some (of_Z 50) |}.
Proof.
  assert (Hports : ports_in_range [web]) by (repeat constructor).
  assert (Hin : In web [web]) by (left; reflexivity).
  split; [exact Hports|].
  split; [exact Hin|]. split; [reflexivity|]. split; [reflexivity|].
  exact (proj1 (latency_kept_when_port_closed closed_port_world [web] "token" "42"
                  show_number None 0 web (of_Z 50) Hports Hin eq_refl eq_refl)).
Defined.

Example latency_published_when_port_closed :
  map field_value
    (flat_map (fun c => published_fields (snd c))
       (calls (fst (monitorServers closed_port_world [web] "token" "42" show_number
                      None 0))))
  = [(label Down ++ " | Ping: 50 ms")%string].
Proof. vm_compute. reflexivity. Qed.

(** * Further properties *)

(** ** Classification, read backwards *)

Lemma label_inj (h h' : HealthStatus) : label h = label h' -> h = h'.
Proof.
  destruct h, h'; intros H; try reflexivity; vm_compute in H; discriminate H.
Qed.

Lemma number_lt_trans_Z (m n : Z) (a : number) :
  (m <= n)%Z -> number_lt a (of_Z m) -> number_lt a (of_Z n).
Proof.
  intros Hmn. destruct a as [x| | |]; simpl; trivial.
  intros H. eapply Qlt_le_trans; [exact H|]. rewrite <- Zle_Qle. exact Hmn.
Qed.

Lemma number_ltb_false_le (a : number) (m n : Z) :
  number_ltb a (of_Z m) = false -> number_ltb a (of_Z n) = true ->
  number_le (of_Z m) a.
Proof.
  destruct a as [x| | |]; cbn [number_ltb number_le of_Z]; intros Hm Hn;
    try discriminate Hn; try discriminate Hm.
  apply Qnot_lt_le. intros Hlt.
  pose proof (proj1 (Qlt_alt _ _) Hlt) as Hc. now rewrite Hc in Hm.
Qed.

(** X1. The status tells what was measured: it is Good only for an open
    port and a latency below 100, Degraded only for an open port and a
    latency from 100 up to 200, and Down in every other case, which
    includes a latency that is not below 200 in the order of numbers (NaN
    among them). *)
Theorem classify_complete (L : option number) (R : bool) :
  (classify L R = label Good <->
   exists l, L = Some l /\ R = true /\ number_lt l (of_Z 100)) /\
  (classify L R = label Degraded <->
   exists l, L = Some l /\ R = true /\
             number_le (of_Z 100) l /\ number_lt l (of_Z 200)) /\
  (classify L R = label Down <->
   R = false \/ L = None \/
   exists l, L = Some l /\ ~ number_lt l (of_Z 200)).
Proof.
  unfold classify. destruct L as [l|].
  2: { repeat split; intros H; auto;
         try (apply label_inj in H; discriminate H);
         destruct H as (l & Hl & _); discriminate Hl. }
  destruct R.
  2: { repeat split; intros H; auto;
         try (apply label_inj in H; discriminate H);
         destruct H as (l' & _ & HR & _); discriminate HR. }
  destruct (number_ltb l (of_Z 100)) eqn:H100.
  - pose proof (proj1 (number_ltb_lt _ _) H100) as Hlt.
    repeat split; intros H; try (apply label_inj in H; discriminate H).
    + now exists l.
    + destruct H as (l' & [= <-] & _ & Hle & _).
      now rewrite (number_le_not_ltb _ _ Hle) in H100.
    + destruct H as [H | [H | (l' & [= <-] & H)]]; try discriminate H.
      exfalso. apply H. now apply (number_lt_trans_Z 100 200).
  - destruct (number_ltb l (of_Z 200)) eqn:H200.
    + pose proof (proj1 (number_ltb_lt _ _) H200) as Hlt.
      repeat split; intros H; try (apply label_inj in H; discriminate H).
      * destruct H as (l' & [= <-] & _ & H). apply number_ltb_lt in H. congruence.
      * exists l. repeat split; trivial. exact (number_ltb_false_le l 100 200 H100 H200).
      * destruct H as [H | [H | (l' & [= <-] & H)]]; try discriminate H.
        contradiction.
    + repeat split; intros H; try (apply label_inj in H; discriminate H).
      * destruct H as (l' & [= <-] & _ & H). apply number_ltb_lt in H. congruence.
      * destruct H as (l' & [= <-] & _ & _ & H). apply number_ltb_lt in H. congruence.
      * right. right. exists l. split; [reflexivity|].
        intros Hlt. apply number_ltb_lt in Hlt. congruence.
Qed.

(** ** The probes, one by one *)

Lemma ping_value_Some (W : World) (t : time) (ip : string) (n : number) :
  ping_value W t ip = Some n <->
  exists res, fst (ping_reply W t ip) = Some res /\
              alive res = true /\ res_time res = time_number n.
Proof.
  unfold ping_value.
  destruct (fst (ping_reply W t ip)) as [[a rt]|].
  - destruct a, rt as [n'|]; cbn [alive res_time]; split; intros H;
      try discriminate H;
      try (destruct H as (res & [= <-] & Ha & Hn); cbn in Ha, Hn;
           try discriminate Ha; try discriminate Hn).
    + injection H as <-. eexists. repeat split.
    + now injection Hn as <-.
  - split; [discriminate|]. intros (res & Hres & _). discriminate Hres.
Qed.

Lemma ping_value_None (W : World) (t : time) (ip : string) :
  ping_value W t ip = None <->
  match fst (ping_reply W t ip) with
  | None => True
  | Some res => alive res = false \/ res_time res = time_unknown
  end.
Proof.
  unfold ping_value.
  destruct (fst (ping_reply W t ip)) as [[a rt]|]; [|tauto].
  destruct a, rt as [n'|]; cbn [alive res_time]; split; intros H;
    try discriminate H; auto; destruct H as [H|H]; discriminate H.
Qed.

(** X2. [pingServer] reports a latency exactly when the probe answered,
    the host is alive and [res.time] is a number; a probe that throws, a
    dead host and a live host with a non-numeric time all give null.  In
    every case it resolves when the probe settles and has probed once. *)
Theorem pingServer_measures (W : World) (ip : string) (t : time) :
  let r := pingServer W ip t in
  (forall n,
     outcome r = Resolved (Some n) <->
     exists res, fst (ping_reply W t ip) = Some res /\
                 alive res = true /\ res_time res = time_number n) /\
  (outcome r = Resolved None <->
   match fst (ping_reply W t ip) with
   | None => True
   | Some res => alive res = false \/ res_time res = time_unknown
   end) /\
  settled_at r = t + snd (ping_reply W t ip) /\
  calls r = [(t, PingProbe ip)].
Proof.
  cbn zeta. rewrite pingServer_eq. cbn [outcome settled_at calls].
  split; [|split; [|split; reflexivity]].
  - intros n. rewrite <- ping_value_Some. split; [now intros [= ->] | now intros ->].
  - rewrite <- ping_value_None. split; [now intros [= H] | now intros ->].
Qed.

(** X3. For a port that [socket.connect] accepts (an integer from 0 to
    65535), [checkTCPPort] reports the port open exactly when the peer
    accepts the connection strictly before the 3000 ms timeout, and then it
    resolves at the instant of the connection. *)
Theorem checkTCPPort_open_iff (W : World) (ip : string) (port : number) (t : time) :
  valid_port true port = true ->
  let r := checkTCPPort W ip port t in
  outcome r = Resolved true <->
  exists d, socket_reply W t port ip = accepts_after d /\ d < 3000 /\
            settled_at r = t + d.
Proof.
  intros Hport. cbn zeta. rewrite (checkTCPPort_eq W ip port t Hport).
  cbn zeta. cbn [outcome settled_at].
  destruct (socket_reply W t port ip) as [d|d|]; cbn [socket_first_event].
  - destruct (N.ltb_spec d 3000) as [Hd|Hd]; cbn [fst snd].
    + split; [intros _; exists d; repeat split; exact Hd | reflexivity].
    + split; [discriminate | intros (d' & [= <-] & Hlt & _); lia].
  - split.
    + destruct (d <? 3000); discriminate.
    + intros (d' & Hr & _). discriminate Hr.
  - split; [discriminate | intros (d' & Hr & _); discriminate Hr].
Qed.

Lemma checkTCPPort_open_iff_witness :
  valid_port true (of_Z 443) = true /\
  outcome (checkTCPPort healthy_world "10.0.0.1" (of_Z 443) 0) = Resolved true.
Proof.
  assert (Hport : valid_port true (of_Z 443) = true) by reflexivity.
  split; [exact Hport|].
  apply (proj2 (checkTCPPort_open_iff healthy_world "10.0.0.1" (of_Z 443) 0 Hport)).
  exists 10. repeat split.
Defined.

(** X4. For a port that [send] accepts (an integer from 1 to 65535),
    [checkUDPPort] reports the port open exactly when the datagram left
    without a local error, whatever the peer does; it resolves when the
    socket calls back, and since it sets no timeout there is no bound on
    how long that takes. *)
Theorem checkUDPPort_no_timeout (ip : string) (port : number) (t : time) :
  valid_port false port = true ->
  (forall W, let r := checkUDPPort W ip port t in
     (outcome r = Resolved true <-> fst (dgram_reply W t port ip) = dgram_sent false) /\
     settled_at r = t + snd (dgram_reply W t port ip) /\
     calls r = [(t, DgramSend port ip)]) /\
  (forall bound, exists W, t + bound < settled_at (checkUDPPort W ip port t)).
Proof.
  intros Hport. split.
  - intros W. unfold checkUDPPort, perform. rewrite Hport.
    destruct (dgram_reply W t port ip) as [[|[]] d]; cbn; repeat split;
      intros H; try discriminate H; reflexivity.
  - intros bound.
    exists (steady_world (None, 0) silent (dgram_error, bound + 1)
              (fun _ => true) 0 true None 0).
    unfold checkUDPPort, perform. rewrite Hport. cbn. lia.
Qed.

Lemma checkUDPPort_no_timeout_witness :
  valid_port false (of_Z 27015) = true /\
  exists W, 0 + 3000 < settled_at (checkUDPPort W "10.0.0.2" (of_Z 27015) 0).
Proof.
  assert (Hport : valid_port false (of_Z 27015) = true) by reflexivity.
  split; [exact Hport|].
  exact (proj2 (checkUDPPort_no_timeout "10.0.0.2" (of_Z 27015) 0 Hport) 3000).
Defined.

(** X5. [checkServerStatus] checks the port by the protocol of the server:
    a TCP server gets one socket connection with the 3000 ms timeout and no
    datagram, and its probe settles at most 3000 ms after the ping; any
    other server gets one datagram and no socket connection. *)
Theorem checkServerStatus_by_protocol (W : World) (server : ServerConfig) (t : time) :
  let r := checkServerStatus W server t in
  let pinged := settled_at (pingServer W (ip server) t) in
  (protocol server = tcp ->
   select is_port_check (calls r)
   = [(pinged, SocketConnect 3000 (port server) (ip server))] /\
   settled_at r <= pinged + 3000) /\
  (protocol server = udp ->
   select is_port_check (calls r) = [(pinged, DgramSend (port server) (ip server))]).
Proof.
  cbn zeta. destruct (checkServerStatus_trace W server t) as [-> ->].
  rewrite pingServer_eq. cbn [settled_at].
  unfold probed_at, port_call, port_duration, port_ok.
  split; intros ->; cbn; [split; [reflexivity|] | reflexivity].
  destruct (valid_port true (port server)); [|lia].
  pose proof (socket_first_event_bound 3000
                (socket_reply W (t + ping_duration W t (ip server))
                   (port server) (ip server))).
  lia.
Qed.

(** ** The overall status as a function of the list *)

Lemma overall_label_inj (h h' : HealthStatus) :
  overall_label h = overall_label h' -> h = h'.
Proof.
  destruct h, h'; intros H; try reflexivity; vm_compute in H; discriminate H.
Qed.

Lemma existsb_Permutation {A} (p : A -> bool) (l l' : list A) :
  Permutation l l' -> existsb p l = existsb p l'.
Proof.
  induction 1 as [|x l l' _ IH|x y l|l l' l'' _ IH1 _ IH2]; simpl.
  - reflexivity.
  - now rewrite IH.
  - now destruct (p x), (p y).
  - now rewrite IH1.
Qed.

(** X6. The overall status does not depend on the order of the servers,
    whatever the status strings are. *)
Theorem overallStatus_Permutation (statuses statuses' : list ServerStatus) :
  Permutation statuses statuses' ->
  overallStatus statuses = overallStatus statuses'.
Proof.
  intros H. unfold overallStatus.
  now rewrite !(existsb_Permutation _ _ _ H).
Qed.

Lemma overallStatus_Permutation_witness :
  let st h := {| st_name := "s"; st_status := label h; st_ping := None |} in
  Permutation [st Good; st Down; st Degraded] [st Down; st Good; st Degraded] /\
  overallStatus [st Good; st Down; st Degraded]
  = overallStatus [st Down; st Good; st Degraded].
Proof.
  intros st.
  assert (H : Permutation [st Good; st Down; st Degraded]
                          [st Down; st Good; st Degraded]) by apply perm_swap.
  split; [exact H|]. exact (overallStatus_Permutation _ _ H).
Defined.

(** X7. The overall status of two lists put together is the worse of the
    two: Critical as soon as one of them is, Operational only if both are,
    and hence Warning otherwise. *)
Theorem overallStatus_app (a b : list ServerStatus) :
  (overallStatus (a ++ b) = overall_label Down <->
   overallStatus a = overall_label Down \/ overallStatus b = overall_label Down) /\
  (overallStatus (a ++ b) = overall_label Good <->
   overallStatus a = overall_label Good /\ overallStatus b = overall_label Good) /\
  exists h, overallStatus (a ++ b) = overall_label h.
Proof.
  unfold overallStatus. rewrite !existsb_app.
  destruct (existsb (fun s => includes (st_status s) red_circle) a),
           (existsb (fun s => includes (st_status s) red_circle) b),
           (existsb (fun s => includes (st_status s) yellow_circle) a),
           (existsb (fun s => includes (st_status s) yellow_circle) b);
    cbn [orb];
    (split; [|split; [|eauto]]); split; intros H; auto;
    repeat match goal with
           | H : _ \/ _ |- _ => destruct H as [H|H]
           | H : _ /\ _ |- _ => destruct H as [H ?]
           | H : overall_label _ = overall_label _ |- _ =>
               apply overall_label_inj in H; discriminate H
           end.
Qed.

(** ** The message and the variable *)

Section Handle.

Variable W : World.
Variable botToken channelId : string.
Variable toString : number -> string.

Local Abbreviation notify := (sendDiscordNotification W botToken channelId toString).
Local Abbreviation report := (report_all W botToken channelId toString).
Local Abbreviation posted statuses now :=
  (post_reply W now (messages_url channelId) (messagePayload toString statuses now)).

(** X9. How one call changes [discordMessageId], whatever Discord answers:
    a truthy value is never changed; a falsy one becomes the id of the
    created message when the create succeeds and stays as it was when it
    fails.  In particular the variable never goes back to null. *)
Theorem discordMessageId_transitions (statuses : list ServerStatus)
    (id : option string) (now : time) :
  let id' := snd (notify statuses id now) in
  (truthy id = true -> id' = id) /\
  (truthy id = false ->
   id' = match fst (posted statuses now) with
         | Some created => Some created
         | None => id
         end) /\
  (id <> None -> id' <> None).
Proof.
  cbn zeta.
  assert (Hfalsy : truthy id = false ->
                   snd (notify statuses id now)
                   = match fst (posted statuses now) with
                     | Some created => Some created
                     | None => id
                     end).
  { intros Hid. destruct (fst (posted statuses now)) as [created|] eqn:Hpost.
    - now rewrite (notify_create_ok W botToken channelId toString statuses id now
                     created Hid Hpost).
    - now rewrite (notify_create_fail W botToken channelId toString statuses id now
                     Hid Hpost). }
  assert (Htruthy : truthy id = true -> snd (notify statuses id now) = id).
  { intros Hid. destruct (truthy_Some id Hid) as (s & -> & Hs).
    destruct (fst (patch_reply W now (message_url channelId s)
                     (messagePayload toString statuses now))) eqn:Hok.
    - now rewrite (notify_update_ok W botToken channelId toString statuses s now
                     Hs Hok).
    - now rewrite (notify_update_fail W botToken channelId toString statuses s now
                     Hs Hok). }
  split; [exact Htruthy|]. split; [exact Hfalsy|].
  intros Hsome. destruct (truthy id) eqn:Hid.
  - now rewrite (Htruthy eq_refl).
  - rewrite (Hfalsy eq_refl). now destruct (fst (posted statuses now)).
Qed.

(** X10. Whatever Discord answers, one call of the reporter resolves, makes
    exactly one request and does not retry; it logs one error when the
    request was refused and nothing otherwise. *)
Theorem sendDiscordNotification_one_request (statuses : list ServerStatus)
    (id : option string) (now : time) :
  let r := fst (notify statuses id now) in
  outcome r = Resolved tt /\
  List.length (select is_publish (calls r)) = 1%nat /\
  (publish_fails W channelId toString statuses id now ->
   List.length (select is_log (calls r)) = 1%nat) /\
  (~ publish_fails W channelId toString statuses id now ->
   calls r = select is_publish (calls r)).
Proof.
  cbn zeta. unfold publish_fails. cbv zeta. destruct (truthy id) eqn:Hid.
  - destruct (truthy_Some id Hid) as (s & -> & Hs).
    destruct (fst (patch_reply W now (message_url channelId s)
                     (messagePayload toString statuses now))) eqn:Hok.
    + rewrite (notify_update_ok W botToken channelId toString statuses s now Hs Hok).
      cbn. repeat split; congruence.
    + rewrite (notify_update_fail W botToken channelId toString statuses s now Hs Hok).
      cbn. repeat split; congruence.
  - destruct (fst (posted statuses now)) as [created|] eqn:Hpost.
    + rewrite (notify_create_ok W botToken channelId toString statuses id now
                 created Hid Hpost).
      cbn. repeat split; try reflexivity.
      intros H. destruct id; discriminate H.
    + rewrite (notify_create_fail W botToken channelId toString statuses id now
                 Hid Hpost).
      cbn. repeat split; try reflexivity.
      intros H. exfalso. apply H. destruct id; reflexivity.
Qed.

(** X11. Once [discordMessageId] holds a non-empty id the reporter never
    creates a message again: in any sequence of calls, whether Discord
    accepts or refuses them, every request is an update of that same
    message, one per call, and the variable keeps the id. *)
Theorem report_all_never_recreates (runs : list (time * list ServerStatus))
    (id : string) :
  id <> "" ->
  snd (report runs (Some id)) = Some id /\
  select is_create (fst (report runs (Some id))) = [] /\
  updated_urls (fst (report runs (Some id)))
  = repeat (message_url channelId id) (List.length runs).
Proof.
  intros Hid.
  induction runs as [|[now statuses] rest (IHid & IHc & IHu)].
  - repeat split.
  - rewrite report_all_cons.
    destruct (fst (patch_reply W now (message_url channelId id)
                     (messagePayload toString statuses now))) eqn:Hok.
    + rewrite (notify_update_ok W botToken channelId toString statuses id now Hid Hok).
      cbn [fst snd calls]. unfold select, updated_urls in *. cbn.
      rewrite IHu. repeat split; auto.
    + rewrite (notify_update_fail W botToken channelId toString statuses id now Hid Hok).
      cbn [fst snd calls]. unfold select, updated_urls in *. cbn.
      rewrite IHu. repeat split; auto.
Qed.

End Handle.

Lemma report_all_never_recreates_witness :
  "1001" <> "" /\
  updated_urls (fst (report_all discord_down_world "token" "42" show_number
                       [(0, []); (30000, [])] (Some "1001")))
  = repeat (message_url "42" "1001") 2.
Proof.
  assert (H : "1001" <> "") by discriminate.
  split; [exact H|].
  exact (proj2 (proj2 (report_all_never_recreates discord_down_world "token" "42"
                         show_number [(0, []); (30000, [])] "1001" H))).
Defined.

(** ** More on one cycle *)

Section CycleMore.

Variable W : World.
Variable servers : list ServerConfig.
Variable botToken channelId : string.
Variable toString : number -> string.

Local Abbreviation notify := (sendDiscordNotification W botToken channelId toString).
Local Abbreviation cycle := (monitorServers W servers botToken channelId toString).
Local Abbreviation write_ok t status :=
  (fst (db_run_reply W (probes_settled W servers t) (insert_params servers status))).

(** The INSERTs all resolve, or the second [Promise.all] rejects with the
    error of SQLite because one of them was rejected. *)
Lemma writes_outcome (t : time) :
  match outcome (writes W servers t) with
  | Resolved _ => Forall (fun status => write_ok t status = true)
                         (cycle_statuses W servers t)
  | Rejected e => e = SqliteError /\
                  Exists (fun status => write_ok t status = false)
                         (cycle_statuses W servers t)
  end.
Proof.
  unfold writes, Promise_all. rewrite map_map.
  destruct (first_rejection _) as [[t' e]|] eqn:Hfirst; cbn [outcome].
  - apply first_rejection_In in Hfirst. destruct Hfirst as (r & Hin & Hr & _).
    apply in_map_iff in Hin. destruct Hin as (status & <- & Hin).
    rewrite db_run_eq in Hr. cbn [outcome] in Hr.
    destruct (write_ok t status) eqn:Hok; [discriminate Hr|].
    injection Hr as <-. split; [reflexivity|].
    apply Exists_exists. now exists status.
  - apply first_rejection_None_inv in Hfirst.
    apply Forall_forall. intros status Hin.
    rewrite Forall_forall in Hfirst.
    destruct (Hfirst (db_run W (insert_params servers status) (probes_settled W servers t)))
      as [a Ha].
    + apply in_map_iff. now exists status.
    + rewrite db_run_eq in Ha. cbn [outcome] in Ha.
      now destruct (write_ok t status).
Qed.

Lemma notify_calls_kind (statuses : list ServerStatus) (id : option string) (now : time) :
  Forall (fun c => is_publish (snd c) || is_log (snd c) = true)
         (calls (fst (notify statuses id now))).
Proof.
  destruct (truthy id) eqn:Hid.
  - destruct (truthy_Some id Hid) as (s & -> & Hs).
    destruct (fst (patch_reply W now (message_url channelId s)
                     (messagePayload toString statuses now))) eqn:Hok.
    + rewrite (notify_update_ok _ _ _ _ statuses s now Hs Hok). now repeat constructor.
    + rewrite (notify_update_fail _ _ _ _ statuses s now Hs Hok). now repeat constructor.
  - destruct (fst (post_reply W now (messages_url channelId)
                     (messagePayload toString statuses now))) as [created|] eqn:Hok.
    + rewrite (notify_create_ok _ _ _ _ statuses id now created Hid Hok).
      now repeat constructor.
    + rewrite (notify_create_fail _ _ _ _ statuses id now Hid Hok).
      now repeat constructor.
Qed.

(** X12. The probes fan out and join: every server is pinged at the
    instant the cycle starts, in the order of the configuration, and no
    INSERT is issued before the probe of every server has settled. *)
Theorem probes_fan_out (id : option string) (t : time) :
  let tr := calls (fst (cycle id t)) in
  select is_ping tr = map (fun server => (t, PingProbe (ip server))) servers /\
  t <= probes_settled W servers t /\
  (forall server, In server servers ->
     settled_at (checkServerStatus W server t) <= probes_settled W servers t) /\
  Forall (fun c => fst c = probes_settled W servers t) (select is_insert tr).
Proof.
  cbn zeta.
  assert (Hprobes : select is_ping (probe_calls W servers t)
                    = map (fun server => (t, PingProbe (ip server))) servers).
  { unfold probe_calls. induction servers as [|s l IH]; [reflexivity|].
    cbn [flat_map map app]. unfold select in *. cbn [filter snd is_ping].
    rewrite IH. unfold port_call. now destruct (protocol s). }
  assert (Hnone : select is_insert (probe_calls W servers t) = []).
  { apply select_none. eapply Forall_impl; [|apply probe_calls_kind].
    now intros c []. }
  split; [|split; [|split]].
  - destruct (ports_in_range_dec servers) as [Hports|Hbad].
    + rewrite (monitorServers_eq W servers botToken channelId toString id t Hports).
      cbn zeta.
      assert (Hwrites : select is_ping (calls (writes W servers t)) = []).
      { apply select_none. eapply Forall_impl; [|apply writes_kind].
        intros [t' c] (Hc & _). now destruct c. }
      assert (Hnotify : forall statuses now,
                 select is_ping (calls (fst (notify statuses id now))) = []).
      { intros statuses now. apply select_none.
        eapply Forall_impl; [|apply notify_calls_kind].
        intros [t' c] Hc. now destruct c. }
      destruct (outcome (writes W servers t)); cbn [fst calls];
        rewrite !select_app, Hprobes, Hwrites, ?Hnotify; now rewrite ?app_nil_r.
    + destruct (monitorServers_bad W servers botToken channelId toString id t Hbad)
        as [t' ->].
      exact Hprobes.
  - apply (fold_max_ge (probed_at W t) t servers).
  - intros server Hin. rewrite (proj2 (checkServerStatus_trace W server t)).
    now apply (fold_max_ge (probed_at W t) t servers).
  - destruct (ports_in_range_dec servers) as [Hports|Hbad].
    + rewrite (cycle_inserts W servers botToken channelId toString id t Hports),
        writes_calls.
      apply Forall_forall.
      intros c Hc. apply in_map_iff in Hc. now destruct Hc as (status & <- & _).
    + destruct (monitorServers_bad W servers botToken channelId toString id t Hbad)
        as [t' ->].
      cbn [fst calls]. rewrite Hnone. constructor.
Qed.

(** X13. A cycle over servers whose ports are accepted resolves exactly
    when SQLite accepts every INSERT; when one is rejected the cycle
    rejects with that error and leaves [discordMessageId] as it was. *)
Theorem cycle_resolves_iff (id : option string) (t : time) :
  ports_in_range servers ->
  (outcome (fst (cycle id t)) = Resolved tt <->
   Forall (fun status => write_ok t status = true) (cycle_statuses W servers t)) /\
  (Exists (fun status => write_ok t status = false) (cycle_statuses W servers t) ->
   outcome (fst (cycle id t)) = Rejected SqliteError /\ snd (cycle id t) = id).
Proof.
  intros Hports. pose proof (writes_outcome t) as Hw.
  rewrite (monitorServers_eq W servers botToken channelId toString id t Hports).
  cbn zeta.
  destruct (outcome (writes W servers t)) as [vs|e]; cbn [fst snd outcome].
  - destruct (notify_one_request W botToken channelId toString
                (cycle_statuses W servers t) id (settled_at (writes W servers t)))
      as (-> & _).
    split; [tauto|]. intros Hex. exfalso.
    apply Exists_exists in Hex. destruct Hex as (status & Hin & Hfalse).
    rewrite Forall_forall in Hw. specialize (Hw status Hin). congruence.
  - destruct Hw as (-> & Hex). split; [|auto].
    split; [discriminate|]. intros Hall. exfalso.
    apply Exists_exists in Hex. destruct Hex as (status & Hin & Hfalse).
    rewrite Forall_forall in Hall. specialize (Hall status Hin). congruence.
Qed.

(** X19. A configured port that the port check refuses (not an integer
    from 0 to 65535, or 0 for UDP) stops every cycle after the probes: the
    cycle rejects with the error thrown for the port, having issued no
    INSERT and no request to Discord and logged nothing, and leaves
    [discordMessageId] as it was. *)
Theorem bad_port_rejects_cycle (id : option string) (t : time) :
  Exists (fun server => port_ok server = false) servers ->
  outcome (fst (cycle id t)) = Rejected SocketBadPort /\
  calls (fst (cycle id t)) = probe_calls W servers t /\
  inserted (calls (fst (cycle id t))) = [] /\
  select is_publish (calls (fst (cycle id t))) = [] /\
  select is_log (calls (fst (cycle id t))) = [] /\
  snd (cycle id t) = id.
Proof.
  intros Hbad.
  destruct (monitorServers_bad W servers botToken channelId toString id t Hbad)
    as [t' ->].
  cbn [fst snd outcome calls]. repeat split.
  - apply inserted_none. eapply Forall_impl; [|apply probe_calls_kind].
    now intros c [].
  - apply select_none. eapply Forall_impl; [|apply probe_calls_kind].
    now intros c (_ & ? & _).
  - apply select_none. eapply Forall_impl; [|apply probe_calls_kind].
    now intros c (_ & _ & ?).
Qed.

(** X14. Every inserted row has its address columns filled: they are the
    ip, port and protocol of the first configured server that bears the
    name of the row, which is the probed server itself when the names of
    the configuration are distinct. *)
Theorem rows_carry_address (t : time) (server : ServerConfig) :
  In server servers ->
  let row := insert_params servers (status_at W t server) in
  (exists first,
     find (fun s => String.eqb (name s) (name server)) servers = Some first /\
     name first = name server /\
     row_ip row = Some (ip first) /\
     row_port row = Some (port first) /\
     row_protocol row = Some (protocol first)) /\
  (NoDup (map name servers) ->
   row_ip row = Some (ip server) /\
   row_port row = Some (port server) /\
   row_protocol row = Some (protocol server)).
Proof.
  intros Hin. cbn zeta. unfold insert_params, status_at.
  cbn [st_name row_ip row_port row_protocol].
  assert (Hfind : exists first,
             find (fun s => String.eqb (name s) (name server)) servers = Some first /\
             name first = name server /\
             (NoDup (map name servers) -> first = server)).
  { clear -Hin. induction servers as [|s l IH]; [contradiction|].
    cbn [find]. destruct (String.eqb_spec (name s) (name server)) as [Heq|Hneq].
    - exists s. repeat split; trivial. intros Hnodup.
      destruct Hin as [->|Hin]; [reflexivity|]. exfalso.
      cbn [map] in Hnodup. apply NoDup_cons_iff in Hnodup.
      apply (proj1 Hnodup). rewrite Heq. now apply in_map.
    - destruct Hin as [->|Hin]; [contradiction|].
      destruct (IH Hin) as (first & Hfirst & Hname & Hsame).
      exists first. repeat split; trivial. intros Hnodup. apply Hsame.
      cbn [map] in Hnodup. now apply NoDup_cons_iff in Hnodup. }
  destruct Hfind as (first & -> & Hname & Hsame). cbn [option_map]. split.
  - exists first. now repeat split.
  - intros Hnodup. now rewrite (Hsame Hnodup).
Qed.

(** X15. With no server configured a cycle is one call of the reporter on
    the empty list, made at once: nothing is probed and nothing inserted,
    and the one request carries no field. *)
Theorem cycle_without_servers (id : option string) (t : time) :
  monitorServers W [] botToken channelId toString id t = notify [] id t /\
  exists request,
    calls (fst (monitorServers W [] botToken channelId toString id t))
    = (t, request)
      :: select is_log (calls (fst (monitorServers W [] botToken channelId toString id t))) /\
    is_publish request = true /\
    published_fields request = [].
Proof.
  assert (Heq : monitorServers W [] botToken channelId toString id t = notify [] id t).
  { rewrite (monitorServers_eq W [] botToken channelId toString id t (Forall_nil _)).
    cbn zeta. unfold writes, Promise_all.
    cbn [cycle_statuses probes_settled probe_calls map flat_map fold_right
         first_rejection resolved_values last_settled List.concat
         outcome settled_at calls app].
    destruct (notify [] id t) as [[o s c] id']. reflexivity. }
  split; [exact Heq|]. rewrite Heq.
  destruct (truthy id) eqn:Hid.
  - destruct (truthy_Some id Hid) as (s & -> & Hs).
    destruct (fst (patch_reply W t (message_url channelId s)
                     (messagePayload toString [] t))) eqn:Hok.
    + rewrite (notify_update_ok _ _ _ _ [] s t Hs Hok). cbn. eauto.
    + rewrite (notify_update_fail _ _ _ _ [] s t Hs Hok). cbn. eauto.
  - destruct (fst (post_reply W t (messages_url channelId)
                     (messagePayload toString [] t))) as [created|] eqn:Hok.
    + rewrite (notify_create_ok _ _ _ _ [] id t created Hid Hok). cbn. eauto.
    + rewrite (notify_create_fail _ _ _ _ [] id t Hid Hok). cbn. eauto.
Qed.

End CycleMore.

Lemma rows_carry_address_witness :
  In game [web; game; backup] /\
  NoDup (map name [web; game; backup]) /\
  row_ip (insert_params [web; game; backup] (status_at mixed_world 0 game))
  = Some "10.0.0.2".
Proof.
  assert (Hin : In game [web; game; backup]) by (right; left; reflexivity).
  assert (Hnodup : NoDup (map name [web; game; backup])).
  { repeat constructor; cbn; intuition discriminate. }
  split; [exact Hin|]. split; [exact Hnodup|].
  exact (proj1 (proj2 (rows_carry_address mixed_world [web; game; backup] 0 game Hin)
                  Hnodup)).
Defined.

(** With two servers of the same name, the row of the second one is
    stored with the address of the first. *)
Example duplicate_name_takes_first_address :
  let row := insert_params [web; web_mirror] (status_at healthy_world 0 web_mirror) in
  (row_name row, row_ip row, row_protocol row) = ("web", Some "10.0.0.1", Some tcp).
Proof. reflexivity. Qed.

(** ** Start-up *)

Section Startup.

Variable W : World.
Variable servers : list ServerConfig.
Variable botToken channelId : string.
Variable toString : number -> string.

Local Abbreviation cycle := (monitorServers W servers botToken channelId toString).
Local Abbreviation start := (startMonitoring W servers botToken channelId toString).

(** X16. When the CREATE TABLE of the start-up is rejected,
    [startMonitoring] rejects with that error and has done nothing else:
    no timer is set and no cycle is run. *)
Theorem startMonitoring_setup_failure (id : option string) (t : time) :
  fst (db_exec_reply W t) = false ->
  start id t =
  ({| outcome := Rejected SqliteError;
      settled_at := t + snd (db_exec_reply W t);
      calls := [(t, DbExec)] |}, id).
Proof.
  intros Hfail.
  unfold startMonitoring, sbind, lift, setupDatabase, db_exec, perform.
  destruct (db_exec_reply W t) as [ok d]. cbn [fst] in Hfail. subst ok.
  reflexivity.
Qed.

(** X17. When the database is ready, [startMonitoring] sets the timer, once
    and with a period of 30000 ms, and then runs the first cycle at once,
    without waiting for the first tick; it settles as that cycle does. *)
Theorem startMonitoring_first_cycle (id : option string) (t : time) :
  fst (db_exec_reply W t) = true ->
  let ready := t + snd (db_exec_reply W t) in
  start id t =
  ({| outcome := outcome (fst (cycle id ready));
      settled_at := settled_at (fst (cycle id ready));
      calls := (t, DbExec) :: (ready, SetInterval 30000)
               :: calls (fst (cycle id ready)) |},
   snd (cycle id ready)).
Proof.
  intros Hok. cbn zeta.
  unfold startMonitoring, sbind, lift, setupDatabase, db_exec, setInterval, perform.
  destruct (db_exec_reply W t) as [ok d]. cbn [fst snd] in *. subst ok.
  cbn [outcome settled_at calls fst snd]. rewrite N.add_0_r.
  destruct (cycle id (t + d)) as [r id']. reflexivity.
Qed.

End Startup.

Lemma startMonitoring_setup_failure_witness :
  fst (db_exec_reply no_database_world 0) = false /\
  calls (fst (startMonitoring no_database_world [web; game] "token" "42"
                show_number None 0))
  = [(0, DbExec)].
Proof.
  assert (H : fst (db_exec_reply no_database_world 0) = false) by reflexivity.
  split; [exact H|].
  exact (f_equal (fun r => calls (fst r))
           (startMonitoring_setup_failure no_database_world [web; game] "token" "42"
              show_number None 0 H)).
Defined.

Lemma startMonitoring_first_cycle_witness :
  fst (db_exec_reply healthy_world 0) = true /\
  select is_ping (calls (fst (startMonitoring healthy_world [web; game] "token" "42"
                                show_number None 0)))
  = [(5, PingProbe "10.0.0.1"); (5, PingProbe "10.0.0.2")].
Proof.
  assert (H : fst (db_exec_reply healthy_world 0) = true) by reflexivity.
  split; [exact H|].
  exact (f_equal (fun r => select is_ping (calls (fst r)))
           (startMonitoring_first_cycle healthy_world [web; game] "token" "42"
              show_number None 0 H)).
Defined.

(** ** Cycles in sequence *)

Lemma select_of_publish (p : Call -> bool) (tr : list (time * Call)) :
  (forall c, p c = true -> is_publish c = true) ->
  select p (select is_publish tr) = select p tr.
Proof.
  intros Hp. unfold select. induction tr as [|c tr IH]; [reflexivity|].
  cbn [filter]. destruct (is_publish (snd c)) eqn:Hc; cbn [filter]; rewrite IH.
  - reflexivity.
  - destruct (p (snd c)) eqn:Hpc; [|reflexivity].
    apply Hp in Hpc. congruence.
Qed.

Lemma updated_urls_of_publish (tr : list (time * Call)) :
  updated_urls (select is_publish tr) = updated_urls tr.
Proof.
  unfold updated_urls, select. induction tr as [|[t c] tr IH]; [reflexivity|].
  cbn [filter snd]. destruct c; cbn; now rewrite IH.
Qed.

Section Cycles.

Variable W : World.
Variable servers : list ServerConfig.
Variable botToken channelId : string.
Variable toString : number -> string.

Local Abbreviation notify := (sendDiscordNotification W botToken channelId toString).
Local Abbreviation report := (report_all W botToken channelId toString).
Local Abbreviation cycle := (monitorServers W servers botToken channelId toString).
Local Abbreviation cycles := (monitor_all W servers botToken channelId toString).
Local Abbreviation reports_of starts :=
  (map (fun t => (settled_at (writes W servers t), cycle_statuses W servers t)) starts).

Lemma monitor_all_cons (t : time) (rest : list time) (id : option string) :
  cycles (t :: rest) id =
  ((calls (fst (cycle id t)) ++ fst (cycles rest (snd (cycle id t))))%list,
   snd (cycles rest (snd (cycle id t)))).
Proof.
  cbn [monitor_all]. destruct (cycle id t) as [r id1].
  cbn [fst snd]. destruct (cycles rest id1). reflexivity.
Qed.

(** When SQLite accepts every INSERT, a cycle reports as one call of the
    reporter made when the last INSERT has settled. *)
Lemma cycle_as_report (id : option string) (t : time) :
  ports_in_range servers ->
  (forall t' row, fst (db_run_reply W t' row) = true) ->
  select is_publish (calls (fst (cycle id t)))
  = select is_publish
      (calls (fst (notify (cycle_statuses W servers t) id
                     (settled_at (writes W servers t))))) /\
  snd (cycle id t)
  = snd (notify (cycle_statuses W servers t) id (settled_at (writes W servers t))).
Proof.
  intros Hports Hdb. pose proof (writes_outcome W servers t) as Hw.
  rewrite (cycle_published W servers botToken channelId toString id t Hports),
    (monitorServers_eq W servers botToken channelId toString id t Hports).
  cbn zeta.
  destruct (outcome (writes W servers t)) as [vs|e]; [now split|].
  exfalso. destruct Hw as (_ & Hex). apply Exists_exists in Hex.
  destruct Hex as (status & _ & Hfalse). rewrite Hdb in Hfalse. discriminate Hfalse.
Qed.

Lemma monitor_all_as_report (starts : list time) (id : option string) :
  ports_in_range servers ->
  (forall t' row, fst (db_run_reply W t' row) = true) ->
  select is_publish (fst (cycles starts id))
  = select is_publish (fst (report (reports_of starts) id)) /\
  snd (cycles starts id) = snd (report (reports_of starts) id) /\
  List.length (inserted (fst (cycles starts id)))
  = (List.length starts * List.length servers)%nat.
Proof.
  intros Hports Hdb. revert id.
  induction starts as [|t rest IH]; intros id; [now repeat split|].
  cbn [map]. rewrite monitor_all_cons, report_all_cons. cbn [fst snd].
  destruct (cycle_as_report id t Hports Hdb) as (Hpub & Hid).
  rewrite Hid. destruct (IH (snd (notify (cycle_statuses W servers t) id
                                    (settled_at (writes W servers t)))))
    as (IHpub & IHid & IHrows).
  repeat split.
  - now rewrite !select_app, Hpub, IHpub.
  - exact IHid.
  - rewrite inserted_app, length_app,
      (cycle_inserted W servers botToken channelId toString id t Hports), IHrows.
    unfold cycle_statuses. rewrite !length_map. reflexivity.
Qed.

(** From the unset variable, with every request accepted and every created
    message named: the first report creates, the others update. *)
Lemma report_all_from_unset (now : time) (statuses : list ServerStatus)
    (rest : list (time * list ServerStatus)) :
  publishes_succeed W ->
  ids_non_empty W ->
  exists created,
    snd (report ((now, statuses) :: rest) None) = Some created /\
    List.length (select is_create (fst (report ((now, statuses) :: rest) None))) = 1%nat /\
    List.length (select is_update (fst (report ((now, statuses) :: rest) None)))
    = List.length rest /\
    Forall (fun url => url = message_url channelId created)
           (updated_urls (fst (report ((now, statuses) :: rest) None))).
Proof.
  intros [Hpatch Hpost] Hids.
  destruct (fst (post_reply W now (messages_url channelId)
                   (messagePayload toString statuses now)))
    as [created|] eqn:Hcreated; [|now apply Hpost in Hcreated].
  assert (Hne : created <> "").
  { intros ->. now apply Hids in Hcreated. }
  destruct (report_all_updates W botToken channelId toString rest created Hne Hpatch)
    as (Hid & Hc & Hu & Hurl).
  exists created. rewrite report_all_cons.
  rewrite (notify_create_ok W botToken channelId toString statuses None now
             created eq_refl Hcreated).
  cbn [fst snd calls]. unfold select, updated_urls in *. cbn.
  rewrite Hc. repeat split; auto.
Qed.


End Cycles.


Lemma cycle_resolves_iff_witness :
  ports_in_range [web; game] /\
  outcome (fst (monitorServers healthy_world [web; game] "token" "42" show_number
                  None 0)) = Resolved tt.
Proof.
  assert (Hports : ports_in_range [web; game]) by (repeat constructor).
  split; [exact Hports|].
  apply (proj2 (proj1 (cycle_resolves_iff healthy_world [web; game] "token" "42"
                         show_number None 0 Hports))).
  repeat constructor.
Defined.

Lemma bad_port_rejects_cycle_witness :
  Exists (fun server => port_ok server = false) [web; dns0] /\
  outcome (fst (monitorServers healthy_world [web; dns0] "token" "42" show_number
                  None 0)) = Rejected SocketBadPort.
Proof.
  assert (Hbad : Exists (fun server => port_ok server = false) [web; dns0])
    by (right; left; reflexivity).
  split; [exact Hbad|].
  exact (proj1 (bad_port_rejects_cycle healthy_world [web; dns0] "token" "42"
                  show_number None 0 Hbad)).
Defined.

